(** * Number-system-converter: the radix converter and the offline cache manager

    A shallow embedding of [js/converter.js] (class [NumberSystemConverter])
    and of the service worker script ([sw.js]), with the properties the
    specification states about them.

    Conventions.
    - A JavaScript string is a [string] of the code units U+0000..U+007F
      ([isASCII]).  On these strings [trim], [toUpperCase] and the
      character classes are those of ECMA-262.  Other text (white space
      such as U+00A0, letters with case mappings of their own) is outside
      the model: a statement about what is white space or what upper-cases
      to what speaks of ASCII strings only, and says so where that matters.
    - A JavaScript Number is a [Number]: the integer-valued doubles, the two
      infinities and NaN.  No fraction can arise in the code modelled here.
    - [try]/[catch] and promise chains are written with a sum type
      ([Completion], [Settled]); DOM and cache state is passed explicitly. *)

From Stdlib Require Import ZArith String Ascii List Bool Lia.
Import ListNotations.

Local Open Scope string_scope.
Local Open Scope Z_scope.

(** ** Platform primitives (ECMA-262) *)

Module JS.

Definition code (c : ascii) : Z := Z.of_N (N_of_ascii c).

Definition between (lo hi : Z) (c : ascii) : bool :=
  (lo <=? code c) && (code c <=? hi).

(** WhiteSpace and LineTerminator, as stripped by [trim] and [parseInt],
    among the code units below 128: TAB, LF, VT, FF, CR and SPACE. *)
Definition isWhiteSpace (c : ascii) : bool :=
  between 9 13 c || (code c =? 32).

Fixpoint trimStart (s : string) : string :=
  match s with
  | EmptyString => EmptyString
  | String c rest => if isWhiteSpace c then trimStart rest else s
  end.

Fixpoint allWhiteSpace (s : string) : bool :=
  match s with
  | EmptyString => true
  | String c rest => isWhiteSpace c && allWhiteSpace rest
  end.

Fixpoint trimEnd (s : string) : string :=
  match s with
  | EmptyString => EmptyString
  | String c rest => if allWhiteSpace s then EmptyString else String c (trimEnd rest)
  end.

(** [String.prototype.trim], on ASCII strings *)
Definition trim (s : string) : string := trimEnd (trimStart s).

Definition upperChar (c : ascii) : ascii :=
  if between 97 122 c then ascii_of_N (N_of_ascii c - 32) else c.

(** [String.prototype.toUpperCase], on ASCII strings: a-z to A-Z *)
Fixpoint toUpperCase (s : string) : string :=
  match s with
  | EmptyString => EmptyString
  | String c rest => String (upperChar c) (toUpperCase rest)
  end.

(** [/^[class]+$/.test(s)]: [s] is not empty and every character is in the
    class. *)
Fixpoint allIn (cls : ascii -> bool) (s : string) : bool :=
  match s with
  | EmptyString => true
  | String c rest => cls c && allIn cls rest
  end.

Definition testPlus (cls : ascii -> bool) (s : string) : bool :=
  match s with
  | EmptyString => false
  | String _ _ => allIn cls s
  end.

(** Every character is a code unit below 128. *)
Definition isASCII (s : string) : bool := allIn (fun c => code c <? 128) s.

(** *** Numbers *)

Inductive Number : Type :=
| NaN
| Infinity
| NegInfinity
| Finite (z : Z).

Definition isNaN (x : Number) : bool :=
  match x with NaN => true | _ => false end.

(** [x < 0] *)
Definition ltZero (x : Number) : bool :=
  match x with
  | NegInfinity => true
  | Finite z => z <? 0
  | _ => false
  end.

(** The double nearest to the non-negative integer [m], ties to even;
    integers from [2^1024 - 2^970] on round to Infinity. *)
Definition roundMagnitude (m : Z) : Number :=
  if m <? 2 ^ 53 then Finite m
  else
    let e := Z.log2 m - 52 in
    let q := Z.shiftr m e in
    let rest := Z.land m (Z.ones e) in
    let half := 2 ^ (e - 1) in
    let q' := if (half <? rest) || ((rest =? half) && Z.odd q) then q + 1 else q in
    let v := Z.shiftl q' e in
    if 2 ^ 1024 <=? v then Infinity else Finite v.

Definition negate (x : Number) : Number :=
  match x with
  | NaN => NaN
  | Infinity => NegInfinity
  | NegInfinity => Infinity
  | Finite z => Finite (- z)
  end.

(** The value of a digit character in [parseInt]: 0-9, then a-z or A-Z for
    10 to 35. *)
Definition digitValue (c : ascii) : option Z :=
  if between 48 57 c then Some (code c - 48)
  else if between 97 122 c then Some (code c - 87)
  else if between 65 90 c then Some (code c - 55)
  else None.

Definition isRadixDigit (R : Z) (c : ascii) : bool :=
  match digitValue c with
  | Some d => d <? R
  | None => false
  end.

(** The longest prefix of radix-[R] digits. *)
Fixpoint digitPrefix (R : Z) (s : string) : string :=
  match s with
  | EmptyString => EmptyString
  | String c rest => if isRadixDigit R c then String c (digitPrefix R rest) else EmptyString
  end.

(** The integer a digit string denotes in radix [R] (most significant digit
    first), continuing from [acc]. *)
Fixpoint mathInt (R : Z) (s : string) (acc : Z) : Z :=
  match s with
  | EmptyString => acc
  | String c rest =>
      match digitValue c with
      | Some d => mathInt R rest (acc * R + d)
      | None => acc
      end
  end.

Definition startsWith0x (s : string) : bool :=
  match s with
  | String c1 (String c2 _) => (c1 =? "0")%char && ((c2 =? "x")%char || (c2 =? "X")%char)
  | _ => false
  end.

Definition drop2 (s : string) : string :=
  match s with
  | String _ (String _ rest) => rest
  | _ => s
  end.

(** The sign that [parseInt] reads, and the text after it. *)
Definition splitSign (s : string) : Z * string :=
  match s with
  | String c rest =>
      if (c =? "-")%char then (-1, rest)
      else if (c =? "+")%char then (1, rest)
      else (1, s)
  | EmptyString => (1, s)
  end.

(** [parseInt(string, radix)] for an int32 [radix].  A zero result of a
    negative input is -0, which prints and compares as 0: [Finite 0] stands
    for both.  The result is the double nearest to the integer written,
    every digit read exactly.  ECMA-262 requires that for the radixes 2,
    4, 8, 10, 16 and 32 (in radix 10 the digits after the 20th may be read
    as zeros); for the other radixes it allows an approximation, which
    can differ from the nearest double above 2^53.  [handleInput] calls
    [parseInt] with 2, 8, 10 and 16. *)
Definition parseInt (input : string) (radix : Z) : Number :=
  let '(sign, str) := splitSign (trimStart input) in
  if (radix =? 0) || ((2 <=? radix) && (radix <=? 36)) then
    let R := if radix =? 0 then 10 else radix in
    let stripPrefix := (radix =? 0) || (radix =? 16) in
    let '(R, str) := if stripPrefix && startsWith0x str then (16, drop2 str) else (R, str) in
    match digitPrefix R str with
    | EmptyString => NaN
    | String _ _ as digits =>
        let magnitude := roundMagnitude (mathInt R digits 0) in
        if sign =? -1 then negate magnitude else magnitude
    end
  else NaN.

(** *** Number.prototype.toString(radix) *)

Definition digitChar (d : Z) : ascii :=
  if d <? 10 then ascii_of_N (Z.to_N (48 + d)) else ascii_of_N (Z.to_N (87 + d)).

Fixpoint digitsFuel (fuel : nat) (R z : Z) (acc : string) : string :=
  match fuel with
  | O => acc
  | S fuel' =>
      let acc' := String (digitChar (z mod R)) acc in
      if z / R =? 0 then acc' else digitsFuel fuel' R (z / R) acc'
  end.

(** The positional digits of [z >= 0] in radix [R >= 2], lower case, most
    significant first; "0" for zero. *)
Definition radixDigits (R z : Z) : string :=
  digitsFuel (S (Z.to_nat (Z.log2 z))) R z "".

Fixpoint zeros (n : nat) : string :=
  match n with
  | O => ""
  | S n' => String "0" (zeros n')
  end.

(** Number::toString step 5 for radix 10 and an integer-valued double
    [z > 2^53]: the least [k] and the [s] of [k] digits with
    [s * 10^(n-k)] rounding to [z]; the candidate nearest to [z] wins. *)
Fixpoint shortestFrom (fuel : nat) (k n z : Z) : Z * Z :=
  match fuel with
  | O => (z, n)
  | S fuel' =>
      let t := 10 ^ (n - k) in
      let lo := z / t in
      let hi := lo + 1 in
      let okLo := match roundMagnitude (lo * t) with Finite v => v =? z | _ => false end in
      let okHi := (hi <? 10 ^ k) &&
                  match roundMagnitude (hi * t) with Finite v => v =? z | _ => false end in
      if okLo && okHi then
        (if z - lo * t <=? hi * t - z then (lo, k) else (hi, k))
      else if okLo then (lo, k)
      else if okHi then (hi, k)
      else shortestFrom fuel' (k + 1) n z
  end.

Definition decimalLength (z : Z) : Z := Z.of_nat (String.length (radixDigits 10 z)).

Definition shortestDecimal (z : Z) : string :=
  let d := decimalLength z in
  let '(s, k, n) :=
    match roundMagnitude (10 ^ d) with
    | Finite v => if v =? z then (1, 1, d + 1)
                  else let '(s, k) := shortestFrom (Z.to_nat d) 1 d z in (s, k, d)
    | _ => let '(s, k) := shortestFrom (Z.to_nat d) 1 d z in (s, k, d)
    end in
  let digits := radixDigits 10 s in
  if n <=? 21 then digits ++ zeros (Z.to_nat (n - k))
  else
    match digits with
    | String d1 EmptyString => String d1 ("e+" ++ radixDigits 10 (n - 1))
    | String d1 more => String d1 ("." ++ more ++ "e+" ++ radixDigits 10 (n - 1))
    | EmptyString => EmptyString
    end.

(** Digits of a non-negative integer-valued double.  Up to [2^53] every
    integer is a double and the digits are the exact ones in every radix;
    above, the exact digits are still the shortest that read back in
    radix 2, 8 and 16, while radix 10 prints [shortestDecimal]. *)
Definition magnitudeToString (z radix : Z) : string :=
  if (radix =? 10) && (2 ^ 53 <? z) then shortestDecimal z else radixDigits radix z.

Definition Number_toString (x : Number) (radix : Z) : string :=
  match x with
  | NaN => "NaN"
  | Infinity => "Infinity"
  | NegInfinity => "-Infinity"
  | Finite z => if z <? 0 then "-" ++ magnitudeToString (- z) radix
                else magnitudeToString z radix
  end.

End JS.

(** ** Exceptions and promises *)

Inductive JsError : Type :=
| Error (message : string)
| TypeError (message : string)
| ReferenceError (message : string).

Definition message (e : JsError) : string :=
  match e with
  | Error m | TypeError m | ReferenceError m => m
  end.

(** The outcome of a [try] block: a value, or the exception thrown. *)
Inductive Completion (A : Type) : Type :=
| Normal (a : A)
| Throw (e : JsError).
Arguments Normal {A} a.
Arguments Throw {A} e.

(** A settled promise. *)
Inductive Settled (A : Type) : Type :=
| Fulfilled (a : A)
| Rejected (e : JsError).
Arguments Fulfilled {A} a.
Arguments Rejected {A} e.

(** ** js/converter.js: class NumberSystemConverter *)

Module Converter.
Import JS.

(** An input or result element: its text ([value] of an input,
    [textContent] of a result) and whether its class list holds 'error'. *)
Record Element : Type := mkElement {
  text : string;
  errorClass : bool
}.

(** The objects [this.inputs] and [this.results], keyed by number system in
    the order binary, octal, decimal, hexadecimal. *)
Record Fields : Type := mkFields {
  binary : Element;
  octal : Element;
  decimal : Element;
  hexadecimal : Element
}.

(** The object [conversions] of [updateResults]. *)
Record Conversions : Type := mkConversions {
  c_binary : string;
  c_octal : string;
  c_decimal : string;
  c_hexadecimal : string
}.

Record Converter : Type := mkConverter {
  inputs : Fields;
  results : Fields;
  currentValues : option Conversions;   (* [None] is null *)
  console : list string;                (* console.error, oldest first *)
  notification : option string;         (* text of the copy notification *)
  clipboard : option string             (* what this page wrote to it *)
}.

Definition set_results (f : Fields) (this : Converter) : Converter :=
  mkConverter (inputs this) f (currentValues this)
              (console this) (notification this) (clipboard this).

Definition set_inputs (f : Fields) (this : Converter) : Converter :=
  mkConverter f (results this) (currentValues this)
              (console this) (notification this) (clipboard this).

Definition set_currentValues (v : option Conversions) (this : Converter) : Converter :=
  mkConverter (inputs this) (results this) v
              (console this) (notification this) (clipboard this).

Definition console_error (msg : string) (this : Converter) : Converter :=
  mkConverter (inputs this) (results this) (currentValues this)
              (console this ++ [msg])%list (notification this) (clipboard this).

Definition showCopyMessage (msg : string) (this : Converter) : Converter :=
  mkConverter (inputs this) (results this) (currentValues this)
              (console this) (Some msg) (clipboard this).

Definition clipboard_write (t : string) (this : Converter) : Converter :=
  mkConverter (inputs this) (results this) (currentValues this)
              (console this) (notification this) (Some t).

(** [Object.values(fields).forEach(f)] *)
Definition forEach (f : Element -> Element) (fs : Fields) : Fields :=
  mkFields (f (binary fs)) (f (octal fs)) (f (decimal fs)) (f (hexadecimal fs)).

(** The character classes of the validators in [handleInput]. *)
Definition isBinaryDigit (c : ascii) : bool := between 48 49 c.
Definition isOctalDigit (c : ascii) : bool := between 48 55 c.
Definition isDecimalDigit (c : ascii) : bool := between 48 57 c.
(** [[0-9A-F]] under the [i] flag *)
Definition isHexDigit (c : ascii) : bool :=
  between 48 57 c || between 65 70 c || between 97 102 c.

(** [updateResults(decimalValue, sourceType)] *)
Definition updateResults (decimalValue : Number) (sourceType : string)
    (this : Converter) : Converter :=
  let conversions :=
    mkConversions (Number_toString decimalValue 2)
                  (Number_toString decimalValue 8)
                  (Number_toString decimalValue 10)
                  (toUpperCase (Number_toString decimalValue 16)) in
  (* textContent = result; classList.remove('error') *)
  let show (result : string) := mkElement result false in
  let this :=
    set_results
      (mkFields (show (c_binary conversions)) (show (c_octal conversions))
                (show (c_decimal conversions)) (show (c_hexadecimal conversions)))
      this in
  set_currentValues (Some conversions) this.

(** [showConversionError()] *)
Definition showConversionError (this : Converter) : Converter :=
  let this := set_results (forEach (fun _ => mkElement "Error" true) (results this)) this in
  set_currentValues None this.

(** [clearResults()] *)
Definition clearResults (this : Converter) : Converter :=
  let this := set_results (forEach (fun _ => mkElement "-" false) (results this)) this in
  set_currentValues None this.

(** [clearAll()] *)
Definition clearAll (this : Converter) : Converter :=
  let this := set_inputs (forEach (fun _ => mkElement "" false) (inputs this)) this in
  clearResults this.

(** The [switch] of [handleInput]: the decimal value, or the error thrown. *)
Definition toDecimalValue (sourceType value : string) : Completion Number :=
  if (sourceType =? "binary")%string then
    if negb (testPlus isBinaryDigit value) then Throw (Error "Invalid binary number")
    else Normal (parseInt value 2)
  else if (sourceType =? "octal")%string then
    if negb (testPlus isOctalDigit value) then Throw (Error "Invalid octal number")
    else Normal (parseInt value 8)
  else if (sourceType =? "decimal")%string then
    if negb (testPlus isDecimalDigit value) then Throw (Error "Invalid decimal number")
    else Normal (parseInt value 10)
  else if (sourceType =? "hexadecimal")%string then
    if negb (testPlus isHexDigit value) then Throw (Error "Invalid hexadecimal number")
    else Normal (parseInt value 16)
  else Throw (Error "Unknown number system").

(** The body of the [try] block up to the call of [updateResults]. *)
Definition checkedDecimalValue (sourceType value : string) : Completion Number :=
  match toDecimalValue sourceType value with
  | Normal decimalValue =>
      if isNaN decimalValue || ltZero decimalValue then Throw (Error "Invalid number")
      else Normal decimalValue
  | Throw e => Throw e
  end.

(** [handleInput(sourceType, value)] *)
Definition handleInput (sourceType value : string) (this : Converter) : Converter :=
  let value := toUpperCase (trim value) in
  match value with
  | EmptyString => clearResults this
  | String _ _ =>
      match checkedDecimalValue sourceType value with
      | Normal decimalValue => updateResults decimalValue sourceType this
      | Throw error =>
          showConversionError
            (console_error ("Conversion error: " ++ message error) this)
      end
  end.

Definition resultText (v : Conversions) : string :=
  String.concat (String "010" "")
    [ "Binary: " ++ c_binary v;
      "Octal: " ++ c_octal v;
      "Decimal: " ++ c_decimal v;
      "Hexadecimal: " ++ c_hexadecimal v ].

(** [copyResults()], an async method.  [clipboardWrites] tells whether
    [navigator.clipboard.writeText] fulfils.  When it rejects, the [catch]
    block names [resultText], a [const] of the [try] block that is out of
    scope there: the method's promise rejects with a ReferenceError. *)
Definition copyResults (clipboardWrites : bool) (this : Converter)
    : Settled unit * Converter :=
  match currentValues this with
  | None => (Fulfilled tt, showCopyMessage "No results to copy" this)
  | Some v =>
      if clipboardWrites then
        (Fulfilled tt,
         showCopyMessage "Results copied to clipboard!" (clipboard_write (resultText v) this))
      else
        (Rejected (ReferenceError "resultText is not defined"),
         console_error "Copy failed:" this)
  end.

(** The state the constructor leaves: the elements as the page has them,
    then [clearAll()].  Until then [currentValues] is undefined. *)
Definition construct (pageInputs pageResults : Fields) : Converter :=
  clearAll (mkConverter pageInputs pageResults None [] None None).

(** [String.fromCharCode(which)], as far as the patterns of [bindEvents]
    can tell characters apart: the character of a code unit below 128,
    [None] for every other code unit. *)
Definition fromCharCode (which : Z) : option ascii :=
  let unit := which mod 65536 in
  if unit <? 128 then Some (ascii_of_N (Z.to_N unit)) else None.

(** [pattern.test(char)] for a pattern that is one character class. *)
Definition testChar (pattern : ascii -> bool) (char : option ascii) : bool :=
  match char with
  | Some c => pattern c
  | None => false
  end.

(** What a keypress listener did: [event.preventDefault()], and
    [showInputError], which marks the input as error for 300 ms. *)
Record KeyOutcome : Type := mkKeyOutcome {
  defaultPrevented : bool;
  errorShown : bool
}.

(** [validateInput(event, pattern)], from [event.which] *)
Definition validateInput (which : Z) (pattern : ascii -> bool) : KeyOutcome :=
  let char := fromCharCode which in
  if which <=? 32 then mkKeyOutcome false false
  else if negb (testChar pattern char) then mkKeyOutcome true true
  else mkKeyOutcome false false.

(** The patterns that [bindEvents] gives to the keypress listeners:
    [/[01]/], [/[0-7]/], [/[0-9]/], [/[0-9A-Fa-f]/]. *)
Definition keypressPattern (sourceType : string) : option (ascii -> bool) :=
  if (sourceType =? "binary")%string then Some isBinaryDigit
  else if (sourceType =? "octal")%string then Some isOctalDigit
  else if (sourceType =? "decimal")%string then Some isDecimalDigit
  else if (sourceType =? "hexadecimal")%string then Some isHexDigit
  else None.

(** [x <= y] on Numbers *)
Definition lessEq (x y : Number) : bool :=
  match x, y with
  | NaN, _ | _, NaN => false
  | NegInfinity, _ => true
  | _, Infinity => true
  | Infinity, _ => false
  | _, NegInfinity => false
  | Finite a, Finite b => a <=? b
  end.

(** [getMaxSafeInteger()]: [Number.MAX_SAFE_INTEGER || 9007199254740991] *)
Definition getMaxSafeInteger : Number := Finite 9007199254740991.

(** [isWithinSafeRange(value)] *)
Definition isWithinSafeRange (value : Number) : bool :=
  lessEq value getMaxSafeInteger.

End Converter.

(** ** js/converter.js: class NumberSystemUtils *)

Module NumberSystemUtils.
Import JS.

(** [\w] and [\d] *)
Definition isWordChar (c : ascii) : bool :=
  between 48 57 c || between 65 90 c || between 97 122 c || (code c =? 95).

Definition isDigit (c : ascii) : bool := between 48 57 c.

(** The number of digits at the start of [s]. *)
Fixpoint digitRun (s : string) : nat :=
  match s with
  | EmptyString => O
  | String c rest => if isDigit c then S (digitRun rest) else O
  end.

(** The lookahead [(?=(\d{3})+(?!\d))] at the start of [s]: some positive
    multiple of three digits, then no digit. *)
Definition groupsAhead (s : string) : bool :=
  let k := digitRun s in
  (0 <? k)%nat && (k mod 3 =? 0)%nat.

(** The replacement of every match of [/\B(?=(\d{3})+(?!\d))/g] by a comma.
    The match is empty; [\B] holds before a digit when the character before
    it is a word character, which [prevWord] tells. *)
Fixpoint separate (prevWord : bool) (s : string) : string :=
  match s with
  | EmptyString => EmptyString
  | String c rest =>
      if prevWord && groupsAhead s
      then String "," (String c (separate (isWordChar c) rest))
      else String c (separate (isWordChar c) rest)
  end.

(** [formatWithSeparators(numberStr)] *)
Definition formatWithSeparators (numberStr : string) : string :=
  separate false numberStr.

Record SystemInfo : Type := mkSystemInfo {
  name : string;
  base : Z;
  digits : string;
  description : string
}.

(** What [info[system] || null] evaluates to: an entry of [info], a member
    that the object literal inherits from [Object.prototype], or null. *)
Inductive Found : Type :=
| Own (info : SystemInfo)
| Inherited (key : string)
| Null.

(** The property names of [Object.prototype]. *)
Definition objectPrototype : list string :=
  [ "constructor"; "hasOwnProperty"; "isPrototypeOf"; "propertyIsEnumerable";
    "toLocaleString"; "toString"; "valueOf"; "__proto__";
    "__defineGetter__"; "__defineSetter__"; "__lookupGetter__"; "__lookupSetter__" ].

(** [getSystemInfo(system)] *)
Definition getSystemInfo (system : string) : Found :=
  if (system =? "binary")%string then
    Own (mkSystemInfo "Binary" 2 "0, 1" "Base-2 number system used in computing")
  else if (system =? "octal")%string then
    Own (mkSystemInfo "Octal" 8 "0-7" "Base-8 number system, often used in file permissions")
  else if (system =? "decimal")%string then
    Own (mkSystemInfo "Decimal" 10 "0-9" "Standard base-10 number system")
  else if (system =? "hexadecimal")%string then
    Own (mkSystemInfo "Hexadecimal" 16 "0-9, A-F" "Base-16 number system, common in programming")
  else if existsb (String.eqb system) objectPrototype then Inherited system
  else Null.

(** [s.padStart(targetLength, '0')] *)
Definition padStart (targetLength : nat) (s : string) : string :=
  zeros (targetLength - String.length s) ++ s.

(** The loop that inverts the bits: "0" becomes "1", anything else "0". *)
Fixpoint invert (padded : string) : string :=
  match padded with
  | EmptyString => EmptyString
  | String c rest => String (if (c =? "0")%char then "1"%char else "0"%char) (invert rest)
  end.

(** [parseInt(inverted[i])] of a one-character string; the characters of
    [inverted] are "0" and "1", so NaN does not arise. *)
Definition bit (c : ascii) : Z :=
  match parseInt (String c EmptyString) 0 with
  | Finite d => d
  | _ => 0
  end.

(** The loop that adds 1, from the last character to the first: the
    [result] built so far and the [carry]. *)
Fixpoint addOne (inverted : string) : string * Z :=
  match inverted with
  | EmptyString => (EmptyString, 1)
  | String c rest =>
      let '(result, carry) := addOne rest in
      let sum := bit c + carry in
      (String (digitChar (sum mod 2)) result, sum / 2)
  end.

(** [toSignedBinary(decimal, bits)] for an integer [decimal]; in radix 2
    [toString] prints the exact digits of every integer-valued double. *)
Definition toSignedBinary (decimal : Z) (bits : nat) : string :=
  if 0 <=? decimal then padStart bits (radixDigits 2 decimal)
  else
    let positive := Z.abs decimal in
    let binary := radixDigits 2 positive in
    let padded := padStart bits binary in
    let inverted := invert padded in
    fst (addOne inverted).

(** The text without its commas. *)
Fixpoint withoutCommas (s : string) : string :=
  match s with
  | EmptyString => EmptyString
  | String c rest => if (c =? ",")%char then withoutCommas rest else String c (withoutCommas rest)
  end.

End NumberSystemUtils.

(** ** js/app.js: the keyboard shortcuts of NumberSystemApp *)

Module App.
Import Converter.

Record KeyboardEvent : Type := mkKeyboardEvent {
  ctrlKey : bool;
  metaKey : bool;
  key : string;
  targetIsInput : bool        (* e.target.matches('input') *)
}.

(** The keydown listener of [setupKeyboardShortcuts]: whether it called
    [preventDefault], and [this.converter] afterwards ([None] is null).
    The promise of [copyResults] is not awaited. *)
Definition onKeydown (clipboardWrites : bool) (e : KeyboardEvent)
    (converter : option Converter) : bool * option Converter :=
  let '(prevented, converter) :=
    if (ctrlKey e || metaKey e) && (key e =? "k")%string
    then (true, option_map clearAll converter)
    else (false, converter) in
  let '(prevented, converter) :=
    if (ctrlKey e || metaKey e) && (key e =? "c")%string && negb (targetIsInput e)
    then (true, option_map (fun c => snd (copyResults clipboardWrites c)) converter)
    else (prevented, converter) in
  if (key e =? "Escape")%string
  then (prevented, option_map clearAll converter)
  else (prevented, converter).

End App.

(** ** sw.js: the service worker *)

Module ServiceWorker.

Definition CACHE_NAME : string := "number-converter-v1.0.0".
Definition STATIC_CACHE_NAME : string := CACHE_NAME ++ "-static".
Definition DYNAMIC_CACHE_NAME : string := CACHE_NAME ++ "-dynamic".

Definition STATIC_FILES : list string :=
  [ "/";
    "/index.html";
    "/styles/main.css";
    "/js/converter.js";
    "/js/app.js";
    "/manifest.json";
    "/icons/icon-192x192.png";
    "/icons/icon-512x512.png" ].

Definition MAX_DYNAMIC_CACHE_SIZE : nat := 50.

Record Response : Type := mkResponse {
  status : Z;
  type : string;
  headers : list (string * string);
  body : string
}.

Record Request : Type := mkRequest {
  method : string;
  url : string;            (* absolute *)
  destination : string
}.

(** A cache is a list of requests, each with its response, in insertion
    order; a request is kept by its URL, which is all the Cache API looks at
    in a GET request when no stored response has a Vary header.  The cache
    storage maps names to caches, in order of creation. *)
Definition Cache : Type := list (string * Response).
Definition CacheStorage : Type := list (string * Cache).

(** What the worker does to its surroundings, in order. *)
Inductive Effect : Type :=
| ConsoleLog (msg : string)
| ConsoleError (msg : string)
| SkipWaiting
| ClientsClaim
| CachesDelete (cacheName : string).

Record Worker : Type := mkWorker {
  caches : CacheStorage;
  trace : list Effect
}.

(** A promise-returning computation over the worker's state. *)
Definition Promise (A : Type) : Type := Worker -> Settled A * Worker.

Definition resolve {A} (a : A) : Promise A := fun w => (Fulfilled a, w).
Definition reject {A} (e : JsError) : Promise A := fun w => (Rejected e, w).

(** [p.then(f)] *)
Definition andThen {A B} (p : Promise A) (f : A -> Promise B) : Promise B :=
  fun w =>
    match p w with
    | (Fulfilled a, w') => f a w'
    | (Rejected e, w') => (Rejected e, w')
    end.

(** [p.catch(h)] *)
Definition orCatch {A} (p : Promise A) (h : JsError -> Promise A) : Promise A :=
  fun w =>
    match p w with
    | (Fulfilled a, w') => (Fulfilled a, w')
    | (Rejected e, w') => h e w'
    end.

(** A promise that is started and neither awaited nor returned: its effects
    happen, its outcome is dropped. *)
Definition detached {A} (p : Promise A) : Promise unit :=
  fun w => (Fulfilled tt, snd (p w)).

Declare Scope promise_scope.
Delimit Scope promise_scope with promise.
Notation "x <- p ;; q" := (andThen p (fun x => q))
  (at level 61, p at next level, right associativity) : promise_scope.
Notation "p ;; q" := (andThen p (fun _ => q))
  (at level 61, right associativity) : promise_scope.
Local Open Scope promise_scope.

Definition emit (e : Effect) : Promise unit :=
  fun w => (Fulfilled tt, mkWorker (caches w) (trace w ++ [e])%list).

Definition setCaches (cs : CacheStorage) : Promise unit :=
  fun w => (Fulfilled tt, mkWorker cs (trace w)).

Definition getCaches : Promise CacheStorage :=
  fun w => (Fulfilled (caches w), w).

(** *** Cache and CacheStorage *)

Fixpoint assoc {V} (k : string) (l : list (string * V)) : option V :=
  match l with
  | [] => None
  | (k', v) :: rest => if (k' =? k)%string then Some v else assoc k rest
  end.

Definition remove {V} (k : string) (l : list (string * V)) : list (string * V) :=
  filter (fun kv => negb (fst kv =? k)%string) l.

Definition hasKey {V} (k : string) (l : list (string * V)) : bool :=
  existsb (fun kv => (fst kv =? k)%string) l.

Fixpoint update {V} (k : string) (f : V -> V) (l : list (string * V)) : list (string * V) :=
  match l with
  | [] => []
  | (k', v) :: rest =>
      if (k' =? k)%string then (k', f v) :: rest else (k', v) :: update k f rest
  end.

(** [caches.open(cacheName)]: the cache of that name, created empty when
    there is none.  A cache object is referred to by its name. *)
Definition caches_open (cacheName : string) : Promise string :=
  cs <- getCaches ;;
  (if hasKey cacheName cs then resolve tt else setCaches (cs ++ [(cacheName, [])])%list) ;;
  resolve cacheName.

(** [caches.keys()] *)
Definition caches_keys : Promise (list string) :=
  cs <- getCaches ;; resolve (map fst cs).

(** [caches.delete(cacheName)] *)
Definition caches_delete (cacheName : string) : Promise bool :=
  cs <- getCaches ;;
  emit (CachesDelete cacheName) ;;
  setCaches (remove cacheName cs) ;;
  resolve (hasKey cacheName cs).

(** The URL without its fragment. *)
Fixpoint withoutFragment (u : string) : string :=
  match u with
  | EmptyString => EmptyString
  | String c rest => if (c =? "#")%char then EmptyString else String c (withoutFragment rest)
  end.

(** A request for [u] matches a cached request for [k]: the Cache API
    compares the URLs with the fragment excluded. *)
Definition sameURL (u k : string) : bool :=
  (withoutFragment k =? withoutFragment u)%string.

(** [cache.match(u)]: the first matching entry in insertion order. *)
Fixpoint matchIn (u : string) (c : Cache) : option Response :=
  match c with
  | [] => None
  | (k, r) :: rest => if sameURL u k then Some r else matchIn u rest
  end.

(** The cache without the entries that a request for [u] matches. *)
Definition removeMatching (u : string) (c : Cache) : Cache :=
  filter (fun entry => negb (sameURL u (fst entry))) c.

(** [caches.match(url)]: the first hit over the caches in creation order. *)
Fixpoint matchAll (u : string) (cs : CacheStorage) : option Response :=
  match cs with
  | [] => None
  | (_, c) :: rest =>
      match matchIn u c with
      | Some r => Some r
      | None => matchAll u rest
      end
  end.

Definition caches_match (u : string) : Promise (option Response) :=
  cs <- getCaches ;; resolve (matchAll u cs).

(** [cache.keys()] *)
Definition cache_keys (cache : string) : Promise (list string) :=
  cs <- getCaches ;;
  resolve (match assoc cache cs with Some c => map fst c | None => [] end).

(** The entries that a request for [u] matches are replaced by the new one,
    which goes to the end. *)
Definition putEntry (u : string) (r : Response) (c : Cache) : Cache :=
  (removeMatching u c ++ [(u, r)])%list.

(** Header names are compared without regard to ASCII case. *)
Definition isVary (name : string) : bool :=
  (JS.toUpperCase name =? "VARY")%string.

Definition isTabOrSpace (c : ascii) : bool := (c =? " ")%char || (c =? "009")%char.

(** The members of a comma-separated header value, without their tabs and
    spaces; [current] is the member being read. *)
Fixpoint members (current value : string) : list string :=
  match value with
  | EmptyString => [current]
  | String c rest =>
      if (c =? ",")%char then current :: members EmptyString rest
      else if isTabOrSpace c then members current rest
      else members (current ++ String c EmptyString) rest
  end.

(** The response has a Vary header with the member [*]. *)
Definition variesOnAll (r : Response) : bool :=
  existsb (fun header =>
             isVary (fst header) && existsb (String.eqb "*") (members EmptyString (snd header)))
          (headers r).

(** What [cache.put] and [cache.addAll] refuse to store whatever the
    request: a partial response (status 206) and a response that varies
    on [*]. *)
Definition storable (r : Response) : bool :=
  negb (status r =? 206) && negb (variesOnAll r).

(** [cache.put(request, response)] for a GET request of an http(s) URL, as
    all requests of the worker's origin are. *)
Definition cache_put (cache : string) (u : string) (r : Response) : Promise unit :=
  if storable r then
    cs <- getCaches ;; setCaches (update cache (putEntry u r) cs)
  else reject (TypeError "Failed to execute 'put' on 'Cache'").

(** [cache.delete(request)] *)
Definition cache_delete (cache : string) (u : string) : Promise bool :=
  cs <- getCaches ;;
  setCaches (update cache (removeMatching u) cs) ;;
  resolve (match assoc cache cs with
           | Some c => existsb (fun entry => sameURL u (fst entry)) c
           | None => false
           end).

Definition console_log (msg : string) : Promise unit := emit (ConsoleLog msg).
Definition console_error (msg : string) : Promise unit := emit (ConsoleError msg).
Definition skipWaiting : Promise unit := emit SkipWaiting.
Definition clients_claim : Promise unit := emit ClientsClaim.

(** [Promise.all] over promises started in list order. *)
Fixpoint Promise_all {A} (ps : list (Promise A)) : Promise (list A) :=
  match ps with
  | [] => resolve []
  | p :: rest => a <- p ;; more <- Promise_all rest ;; resolve (a :: more)
  end.

Section Worker.

(** [self.location.origin], and the network: the response a GET of a URL
    receives, [None] when the fetch fails. *)
Variable origin : string.
Variable network : string -> option Response.

(** A path of this origin as an absolute URL. *)
Definition absolute (path : string) : string := origin ++ path.

(** [fetch(request)] *)
Definition fetch (u : string) : Promise Response :=
  match network u with
  | Some r => resolve r
  | None => reject (TypeError "Failed to fetch")
  end.

(** [response.ok] *)
Definition ok (r : Response) : bool := (200 <=? status r) && (status r <=? 299).

(** The responses [cache.addAll] collects: all of them, or nothing when one
    fetch fails, answers with a status outside 200..299 or with status
    206, or answers with a response that varies on [*]. *)
Fixpoint fetchAll (urls : list string) : option (list (string * Response)) :=
  match urls with
  | [] => Some []
  | u :: rest =>
      match network u with
      | Some r =>
          if ok r && storable r then
            match fetchAll rest with
            | Some more => Some ((u, r) :: more)
            | None => None
            end
          else None
      | None => None
      end
  end.

(** [cache.addAll(paths)] *)
Definition cache_addAll (cache : string) (paths : list string) : Promise unit :=
  match fetchAll (map absolute paths) with
  | Some entries =>
      cs <- getCaches ;;
      setCaches (update cache (fun c => fold_left (fun c e => putEntry (fst e) (snd e) c) entries c) cs)
  | None => reject (TypeError "Failed to execute 'addAll' on 'Cache': Request failed")
  end.

(** The listener of 'install'; its result is the promise given to
    [event.waitUntil]. *)
Definition install : Promise unit :=
  console_log "Service Worker installing..." ;;
  orCatch
    (cache <- caches_open STATIC_CACHE_NAME ;;
     (console_log "Pre-caching static files" ;;
      cache_addAll cache STATIC_FILES) ;;
     skipWaiting)
    (fun error => console_error "Error during service worker installation:").

(** The callback that the 'activate' listener maps over the cache names;
    it returns undefined ([None]) for a current partition. *)
Definition deleteIfOld (cacheName : string) : Promise (option bool) :=
  if negb (cacheName =? STATIC_CACHE_NAME)%string
     && negb (cacheName =? DYNAMIC_CACHE_NAME)%string
  then
    console_log ("Deleting old cache: " ++ cacheName) ;;
    deleted <- caches_delete cacheName ;; resolve (Some deleted)
  else resolve None.

(** The listener of 'activate'. *)
Definition activate : Promise unit :=
  console_log "Service Worker activating..." ;;
  orCatch
    (cacheNames <- caches_keys ;;
     Promise_all (map deleteIfOld cacheNames) ;;
     clients_claim)
    (fun error => console_error "Error during service worker activation:").

(** [limitCacheSize(cacheName, maxSize)].  The second callback names
    [cache], which is a parameter of the first callback only and no global
    of a service worker: evaluating it throws a ReferenceError, before
    [delete] is called or the recursive call is chained.  [fuel] bounds the
    recursion of the source. *)
Fixpoint limitCacheSizeFuel (fuel : nat) (cacheName : string) (maxSize : nat) : Promise unit :=
  orCatch
    (keys <- (cache <- caches_open cacheName ;; cache_keys cache) ;;
     if (maxSize <? length keys)%nat then
       cache <- reject (A := string) (ReferenceError "cache is not defined") ;;
       cache_delete cache (hd "" keys) ;;
       match fuel with
       | O => resolve tt
       | S fuel' => detached (limitCacheSizeFuel fuel' cacheName maxSize)
       end
     else resolve tt)
    (fun error => console_error "Error limiting cache size:").

Definition cacheSize (cacheName : string) (w : Worker) : nat :=
  match assoc cacheName (caches w) with
  | Some c => length c
  | None => O
  end.

(** One call per entry present is all a run that deletes one entry per
    call can make. *)
Definition limitCacheSize (cacheName : string) (maxSize : nat) : Promise unit :=
  fun w => limitCacheSizeFuel (cacheSize cacheName w) cacheName maxSize w.

Definition offlineResponse : Response :=
  mkResponse 408 "default" [("Content-Type", "text/plain")]
             "Offline - This resource is not available".

(** The promise the 'fetch' listener gives to [event.respondWith].  A fetch
    that fulfils holds a response, so the test [!networkResponse] is left
    out.  The source calls [cache.put] and then [limitCacheSize] and awaits
    neither.  The put writes its entry only after it has read the body of
    the response, and by then [limitCacheSize], called in the same turn,
    has listed the keys: so the effects of [limitCacheSize] come first
    here, and the entry of this request is not among the keys it counts. *)
Definition respond (request : Request) : Promise (option Response) :=
  cachedResponse <- caches_match (url request) ;;
  match cachedResponse with
  | Some r => resolve (Some r)
  | None =>
      orCatch
        (networkResponse <- fetch (url request) ;;
         if negb (status networkResponse =? 200)
            || negb (type networkResponse =? "basic")%string
         then resolve (Some networkResponse)
         else
           detached
             (orCatch
                (cache <- caches_open DYNAMIC_CACHE_NAME ;;
                 detached (limitCacheSize DYNAMIC_CACHE_NAME MAX_DYNAMIC_CACHE_SIZE) ;;
                 detached (cache_put cache (url request) networkResponse))
                (fun error => console_error "Error caching dynamic content:")) ;;
           resolve (Some networkResponse))
        (fun _ =>
           if (destination request =? "document")%string
           then caches_match (absolute "/index.html")
           else resolve (Some offlineResponse))
  end.

(** The listener of 'fetch': [None] when it returns without calling
    [respondWith] and the browser handles the request itself. *)
Definition onFetch (request : Request) (w : Worker)
    : option (Settled (option Response) * Worker) :=
  if negb (method request =? "GET")%string then None
  else if negb (prefix origin (url request)) then None
  else Some (respond request w).

End Worker.

(** What the browser makes of a settled [waitUntil] promise of the install
    event: the worker is installed, or discarded. *)
Inductive WorkerState : Type := installed | redundant.

Definition afterInstall {A} (p : Settled A) : WorkerState :=
  match p with
  | Fulfilled _ => installed
  | Rejected _ => redundant
  end.

(** What the page that issued the request receives from [respondWith]: the
    response, or a network error when the promise rejects or does not hold
    a response. *)
Inductive Delivered : Type :=
| Answer (r : Response)
| NetworkError.

Definition respondWith (p : Settled (option Response)) : Delivered :=
  match p with
  | Fulfilled (Some r) => Answer r
  | Fulfilled None => NetworkError
  | Rejected _ => NetworkError
  end.

(** [clearAllCaches()] *)
Definition clearAllCaches : Promise (list bool) :=
  cacheNames <- caches_keys ;;
  Promise_all (map caches_delete cacheNames).

(** A message to the worker: [event.data.type] when [event.data] and its
    type are truthy, and whether [event.ports[0]] is there. *)
Record MessageEvent : Type := mkMessageEvent {
  messageType : option string;
  port : bool
}.

Inductive Reply : Type :=
| ReplyVersion (version : string)
| ReplySuccess
| ReplyError (message : string).

(** [event.ports[0].postMessage(reply)]; without a port the member access
    throws. *)
Definition postMessage (event : MessageEvent) (reply : Reply) : Promise (list Reply) :=
  if port event then resolve [reply]
  else reject (TypeError "Cannot read properties of undefined (reading 'postMessage')").

(** The listener of 'message': the replies posted.  A rejection stands for
    an exception of the listener or an unhandled rejection of its chain. *)
Definition onMessage (event : MessageEvent) : Promise (list Reply) :=
  match messageType event with
  | Some type =>
      if (type =? "SKIP_WAITING")%string then skipWaiting ;; resolve []
      else if (type =? "GET_VERSION")%string then postMessage event (ReplyVersion CACHE_NAME)
      else if (type =? "CLEAR_CACHE")%string then
        orCatch (clearAllCaches ;; postMessage event ReplySuccess)
                (fun error => postMessage event (ReplyError (message error)))
      else resolve []
  | None => resolve []
  end.

End ServiceWorker.

(** ** Vocabulary of the specification *)

Module Spec.
Import JS Converter ServiceWorker.

(** The source radix tags and their radixes. *)
Definition systems : list (string * Z) :=
  [("binary", 2); ("octal", 8); ("decimal", 10); ("hexadecimal", 16)].

(** The legal alphabet of a radix: [01], [0-7], [0-9], [0-9A-F]. *)
Definition alphabet (R : Z) (c : ascii) : bool :=
  (between 48 57 c && (code c - 48 <? R)) || (between 65 70 c && (code c - 55 <? R)).

(** [s] is the numeral of [n] in radix [R]: digits of the alphabet, most
    significant first, of value [n], without a leading zero. *)
Definition numeral (R : Z) (s : string) (n : Z) : Prop :=
  testPlus (alphabet R) s = true /\
  mathInt R s 0 = n /\
  (s = "0" \/ exists c rest, s = String c rest /\ c <> "0"%char).

(** Leading-zero normalization: zeros before another digit are dropped. *)
Fixpoint stripLeadingZeros (s : string) : string :=
  match s with
  | String c (String _ _ as rest) => if (c =? "0")%char then stripLeadingZeros rest else s
  | _ => s
  end.

(** [fields[type]] *)
Definition field (type : string) (fs : Fields) : option Element :=
  if (type =? "binary")%string then Some (binary fs)
  else if (type =? "octal")%string then Some (octal fs)
  else if (type =? "decimal")%string then Some (decimal fs)
  else if (type =? "hexadecimal")%string then Some (hexadecimal fs)
  else None.

(** Result fields that display the four strings [v], none marked as error. *)
Definition shown (v : Conversions) : Fields :=
  mkFields (mkElement (c_binary v) false) (mkElement (c_octal v) false)
           (mkElement (c_decimal v) false) (mkElement (c_hexadecimal v) false).

Definition placeholders : Fields :=
  mkFields (mkElement "-" false) (mkElement "-" false)
           (mkElement "-" false) (mkElement "-" false).

Definition errorMarkers : Fields :=
  mkFields (mkElement "Error" true) (mkElement "Error" true)
           (mkElement "Error" true) (mkElement "Error" true).

(** The four renderings [updateResults] makes of a number. *)
Definition conversionsOf (x : Number) : Conversions :=
  mkConversions (Number_toString x 2) (Number_toString x 8)
                (Number_toString x 10) (toUpperCase (Number_toString x 16)).

(** The result fields display the conversion of some number that
    [handleInput] lets through. *)
Definition displaysConversion (this : Converter) : Prop :=
  exists x, isNaN x = false /\ ltZero x = false /\ results this = shown (conversionsOf x).

(** What the user does on the page. *)
Inductive Action : Type :=
| TypeIn (sourceType value : string)
| Clear
| Copy (clipboardWrites : bool).

Definition step (this : Converter) (a : Action) : Converter :=
  match a with
  | TypeIn sourceType value => handleInput sourceType value this
  | Clear => clearAll this
  | Copy clipboardWrites => snd (copyResults clipboardWrites this)
  end.

(** The states of a converter on a page: the one its constructor leaves,
    and those the user's actions lead to from there. *)
Inductive Reachable : Converter -> Prop :=
| reach_construct pageInputs pageResults :
    Reachable (construct pageInputs pageResults)
| reach_step this a :
    Reachable this -> Reachable (step this a).

(** The copy buffer agrees with the result fields. *)
Definition consistent (this : Converter) : Prop :=
  match currentValues this with
  | None => results this = placeholders \/ results this = errorMarkers
  | Some v =>
      results this = shown v /\
      exists x, isNaN x = false /\ ltZero x = false /\ v = conversionsOf x
  end.

(** Partition names derived from a version string. *)
Definition staticName (version : string) : string := version ++ "-static".
Definition dynamicName (version : string) : string := version ++ "-dynamic".

Definition cacheNames (w : Worker) : list string := map fst (caches w).

(** The keys of the dynamic partition, oldest first. *)
Definition dynamicKeys (w : Worker) : list string :=
  match assoc DYNAMIC_CACHE_NAME (caches w) with
  | Some c => map fst c
  | None => []
  end.

(** The worker after the 'fetch' listener has handled the requests in turn. *)
Definition serve (origin : string) (network : string -> option Response)
    (requests : list Request) (w : Worker) : Worker :=
  fold_left
    (fun w request =>
       match onFetch origin network request w with
       | Some (_, w') => w'
       | None => w
       end)
    requests w.

(** A name that is neither current partition name. *)
Definition isOld (name : string) : bool :=
  negb (name =? STATIC_CACHE_NAME)%string && negb (name =? DYNAMIC_CACHE_NAME)%string.

(** The effects of the purge in 'activate' for the names listed. *)
Fixpoint purgeEffects (names : list string) : list Effect :=
  match names with
  | [] => []
  | n :: rest =>
      if isOld n
      then ConsoleLog ("Deleting old cache: " ++ n) :: CachesDelete n :: purgeEffects rest
      else purgeEffects rest
  end.

(** The cache storage after the deletions that 'activate' makes for a list
    of names. *)
Definition purge (names : list string) (cs : CacheStorage) : CacheStorage :=
  fold_left (fun cs n => if isOld n then remove n cs else cs) names cs.

(** The cache storage once [caches.open(cacheName)] has run. *)
Definition opened (cacheName : string) (cs : CacheStorage) : CacheStorage :=
  if hasKey cacheName cs then cs else (cs ++ [(cacheName, [])])%list.

(** The 256 characters. *)
Definition allAscii : list ascii := map ascii_of_nat (seq 0 256).

(** The text that a sequence of keypresses types. *)
Fixpoint typed (keys : list Z) : option string :=
  match keys with
  | [] => Some EmptyString
  | k :: rest =>
      match fromCharCode k, typed rest with
      | Some c, Some s => Some (String c s)
      | _, _ => None
      end
  end.

(** A GET request of the worker's client for a URL. *)
Definition getRequest (u destination : string) : Request :=
  mkRequest "GET" u destination.

(** The request is one whose response the 'fetch' listener stores. *)
Definition cacheable (origin : string) (network : string -> option Response)
    (request : Request) : Prop :=
  method request = "GET" /\ prefix origin (url request) = true /\
  exists r, network (url request) = Some r /\ status r = 200 /\ type r = "basic".

(** The response has no Vary header.  For such a response the Cache API
    decides a match by the URL alone. *)
Definition noVaryHeader (r : Response) : bool :=
  negb (existsb (fun header => isVary (fst header)) (headers r)).

(** No response in the cache storage has a Vary header. *)
Definition withoutVary (cs : CacheStorage) : bool :=
  forallb (fun partition => forallb (fun entry => noVaryHeader (snd entry)) (snd partition)) cs.

(** The network serves every static file of the origin with an ok status,
    not as a partial response and without a Vary header. *)
Definition served (origin : string) (network : string -> option Response) : Prop :=
  forall asset, In asset STATIC_FILES ->
    exists r, network (absolute origin asset) = Some r /\
              ok r = true /\ status r <> 206 /\ noVaryHeader r = true.

End Spec.

(** ** Concrete pages, networks and workers *)

Module Examples.
Import JS Converter ServiceWorker Spec.

Definition blankPage : Fields :=
  mkFields (mkElement "" false) (mkElement "" false)
           (mkElement "" false) (mkElement "" false).

(** The converter of a freshly loaded page. *)
Definition fresh : Converter := construct blankPage blankPage.

(** A decimal numeral above every double: 1 followed by 309 zeros. *)
Definition tenTo309 : string := String "1" (zeros 309).

Definition exampleOrigin : string := "https://converter.example".

Definition offline (u : string) : option Response := None.

Definition online (u : string) : option Response :=
  Some (mkResponse 200 "basic" [("Content-Type", "text/html")] u).

(** A worker that has cached nothing and done nothing. *)
Definition emptyWorker : Worker := mkWorker [] [].

(** A worker whose static partition holds the main page. *)
Definition mainPage : Response :=
  mkResponse 200 "basic" [("Content-Type", "text/html")] "<html>".

Definition precached : Worker :=
  mkWorker [(STATIC_CACHE_NAME, [(exampleOrigin ++ "/index.html", mainPage)])] [].

(** A worker that still holds the partitions of version 0.9.0. *)
Definition upgraded : Worker :=
  mkWorker [ ("number-converter-v0.9.0-static", []);
             ("number-converter-v0.9.0-dynamic", []);
             (STATIC_CACHE_NAME, [(exampleOrigin ++ "/index.html", mainPage)]) ] [].

Definition get (path destination : string) : Request :=
  mkRequest "GET" (exampleOrigin ++ path) destination.

(** [n] requests for distinct scripts of the origin. *)
Definition scripts (n : nat) : list Request :=
  map (fun i => get ("/lib/" ++ radixDigits 10 (Z.of_nat i) ++ ".js") "script") (seq 0 n).

End Examples.

Import JS Converter ServiceWorker Spec Examples.

(** ** Characters and digits *)

Section Characters.

(** A boolean property checked on the 256 characters holds of all. *)
Lemma ascii_cases (P : ascii -> bool) :
  forallb P allAscii = true -> forall c, P c = true.
Proof.
  intros H c. rewrite forallb_forall in H. apply H.
  rewrite <- (ascii_nat_embedding c). unfold allAscii.
  apply in_map, in_seq. pose proof (nat_ascii_bounded c). lia.
Qed.

(** A boolean property checked on [0 .. n-1] holds on that range. *)
Lemma range_cases (P : Z -> bool) (n : nat) :
  forallb P (map Z.of_nat (seq 0 n)) = true ->
  forall d, 0 <= d < Z.of_nat n -> P d = true.
Proof.
  intros H d Hd. rewrite forallb_forall in H. apply H.
  rewrite <- (Z2Nat.id d) by lia. apply in_map, in_seq. lia.
Qed.

End Characters.

Ltac by_ascii_cases c :=
  pattern c;
  match goal with
  | |- (fun x => @?P x = true) _ => apply (ascii_cases P); vm_compute; reflexivity
  end.

Ltac by_range_cases d n :=
  pattern d;
  match goal with
  | |- (fun x => @?P x = true) _ =>
      apply (range_cases P n); [vm_compute; reflexivity | simpl; lia]
  end.

Lemma digitValue_range c d : digitValue c = Some d -> 0 <= d < 36.
Proof.
  intros H.
  assert (G : match digitValue c with
              | Some d => (0 <=? d) && (d <? 36)
              | None => true
              end = true) by by_ascii_cases c.
  rewrite H in G. lia.
Qed.

(** Facts about single characters, each checked on all of them. *)

Lemma digit_not_special c :
  match digitValue c with
  | Some _ => negb (isWhiteSpace c) && negb (c =? "-")%char && negb (c =? "+")%char
  | None => true
  end = true.
Proof. by_ascii_cases c. Qed.

Lemma x_is_digit_33 c :
  (if (c =? "x")%char || (c =? "X")%char
   then match digitValue c with Some d => d =? 33 | None => false end
   else true) = true.
Proof. by_ascii_cases c. Qed.

Lemma digitValue_upperChar c :
  match digitValue (upperChar c), digitValue c with
  | Some a, Some b => a =? b
  | None, None => true
  | _, _ => false
  end = true.
Proof. by_ascii_cases c. Qed.

Lemma upperChar_idempotent_b c : (upperChar (upperChar c) =? upperChar c)%char = true.
Proof. by_ascii_cases c. Qed.

Lemma upperChar_not_lower c : between 97 122 (upperChar c) = false.
Proof.
  assert (G : negb (between 97 122 (upperChar c)) = true) by by_ascii_cases c.
  now apply negb_true_iff in G.
Qed.

Lemma upperChar_whitespace c : isWhiteSpace c = true -> upperChar c = c.
Proof.
  intros H.
  assert (G : (if isWhiteSpace c then (upperChar c =? c)%char else true) = true)
    by by_ascii_cases c.
  rewrite H in G. now apply Ascii.eqb_eq.
Qed.

Lemma upperChar_zero c : (upperChar c =? "0")%char = (c =? "0")%char.
Proof.
  assert (G : Bool.eqb (upperChar c =? "0")%char (c =? "0")%char = true)
    by by_ascii_cases c.
  now apply Bool.eqb_prop in G.
Qed.

(** The lower-case digit character of a digit's value. *)
Lemma digitChar_of_digitValue c :
  match digitValue c with
  | Some d => (upperChar (digitChar d) =? upperChar c)%char
  | None => true
  end = true.
Proof. by_ascii_cases c. Qed.

Lemma digitChar_decimal c :
  (if between 48 57 c
   then match digitValue c with Some d => (digitChar d =? c)%char | None => false end
   else true) = true.
Proof. by_ascii_cases c. Qed.

Lemma digitValue_digitChar d : 0 <= d < 36 -> digitValue (digitChar d) = Some d.
Proof.
  intros Hd.
  assert (G : match digitValue (digitChar d) with
              | Some d' => d' =? d
              | None => false
              end = true).
  { by_range_cases d 36%nat. }
  destruct (digitValue (digitChar d)); [f_equal; lia | discriminate].
Qed.

Lemma digitChar_zero d : 0 <= d < 36 -> (digitChar d =? "0")%char = (d =? 0).
Proof.
  intros Hd.
  assert (G : Bool.eqb (digitChar d =? "0")%char (d =? 0) = true).
  { by_range_cases d 36%nat. }
  now apply Bool.eqb_prop in G.
Qed.

(** Upper-cased lower-case digits below 16 are in the alphabet of any
    radix above them. *)
Lemma alphabet_upper_digitChar d :
  0 <= d < 16 ->
  alphabet (d + 1) (upperChar (digitChar d)) = true.
Proof.
  intros Hd. by_range_cases d 16%nat.
Qed.

Lemma alphabet_decimal_digitChar d :
  0 <= d < 10 -> alphabet (d + 1) (digitChar d) = true.
Proof.
  intros Hd. by_range_cases d 10%nat.
Qed.

(** The validators of [handleInput] are the digit tests of [parseInt]. *)
Lemma isBinaryDigit_radix c : isBinaryDigit c = isRadixDigit 2 c.
Proof.
  assert (G : Bool.eqb (isBinaryDigit c) (isRadixDigit 2 c) = true) by by_ascii_cases c.
  now apply Bool.eqb_prop in G.
Qed.

Lemma isOctalDigit_radix c : isOctalDigit c = isRadixDigit 8 c.
Proof.
  assert (G : Bool.eqb (isOctalDigit c) (isRadixDigit 8 c) = true) by by_ascii_cases c.
  now apply Bool.eqb_prop in G.
Qed.

Lemma isDecimalDigit_radix c : isDecimalDigit c = isRadixDigit 10 c.
Proof.
  assert (G : Bool.eqb (isDecimalDigit c) (isRadixDigit 10 c) = true) by by_ascii_cases c.
  now apply Bool.eqb_prop in G.
Qed.

Lemma isHexDigit_radix c : isHexDigit c = isRadixDigit 16 c.
Proof.
  assert (G : Bool.eqb (isHexDigit c) (isRadixDigit 16 c) = true) by by_ascii_cases c.
  now apply Bool.eqb_prop in G.
Qed.

(** In each of the four radixes the alphabet is the digit test restricted
    to characters that upper-casing leaves alone. *)
Lemma alphabet_radix R c :
  In R [2; 8; 10; 16] ->
  alphabet R c = isRadixDigit R c && (upperChar c =? c)%char.
Proof.
  intros HR.
  assert (G : forallb (fun R => Bool.eqb (alphabet R c)
                                  (isRadixDigit R c && (upperChar c =? c)%char))
                      [2; 8; 10; 16] = true) by by_ascii_cases c.
  rewrite forallb_forall in G. apply Bool.eqb_prop, G, HR.
Qed.

Lemma isWhiteSpace_upperChar c : isWhiteSpace (upperChar c) = isWhiteSpace c.
Proof.
  assert (G : Bool.eqb (isWhiteSpace (upperChar c)) (isWhiteSpace c) = true)
    by by_ascii_cases c.
  now apply Bool.eqb_prop in G.
Qed.

Lemma upperChar_idempotent c : upperChar (upperChar c) = upperChar c.
Proof. apply Ascii.eqb_eq, upperChar_idempotent_b. Qed.

Lemma isRadixDigit_upperChar R c : isRadixDigit R (upperChar c) = isRadixDigit R c.
Proof.
  unfold isRadixDigit. pose proof (digitValue_upperChar c) as G.
  destruct (digitValue (upperChar c)), (digitValue c); try discriminate; trivial.
  apply Z.eqb_eq in G. now subst.
Qed.

Lemma isRadixDigit_value R c :
  isRadixDigit R c = true -> exists d, digitValue c = Some d /\ 0 <= d < R.
Proof.
  unfold isRadixDigit. destruct (digitValue c) as [d|] eqn:E; [|discriminate].
  intros H. exists d. split; trivial. apply digitValue_range in E. lia.
Qed.

Lemma isRadixDigit_not_whitespace R c : isRadixDigit R c = true -> isWhiteSpace c = false.
Proof.
  intros H. destruct (isRadixDigit_value _ _ H) as (d & E & _).
  pose proof (digit_not_special c) as G. rewrite E in G.
  destruct (isWhiteSpace c); [discriminate | reflexivity].
Qed.

(** ** Strings *)

Lemma append_assoc (s t u : string) : (s ++ t) ++ u = s ++ (t ++ u).
Proof. induction s as [|c s IH]; simpl; [reflexivity | now rewrite IH]. Qed.

Lemma append_nil_r (s : string) : s ++ "" = s.
Proof. induction s as [|c s IH]; simpl; [reflexivity | now rewrite IH]. Qed.

Lemma allIn_ext (f g : ascii -> bool) s :
  (forall c, f c = g c) -> allIn f s = allIn g s.
Proof. intros H. induction s as [|c s IH]; simpl; [reflexivity | now rewrite H, IH]. Qed.

Lemma testPlus_ext (f g : ascii -> bool) s :
  (forall c, f c = g c) -> testPlus f s = testPlus g s.
Proof. intros H. destruct s; [reflexivity | now apply allIn_ext]. Qed.

Lemma testPlus_allIn f s : testPlus f s = true -> allIn f s = true.
Proof. destruct s; [discriminate | trivial]. Qed.

Lemma testPlus_nonempty f s : testPlus f s = true -> s <> "".
Proof. destruct s; [discriminate | discriminate]. Qed.

Lemma testPlus_not_empty f s : s <> "" -> testPlus f s = allIn f s.
Proof. destruct s; [congruence | reflexivity]. Qed.

Lemma allIn_app f s t : allIn f (s ++ t) = allIn f s && allIn f t.
Proof. induction s as [|c s IH]; simpl; [reflexivity | now rewrite IH, andb_assoc]. Qed.

Lemma toUpperCase_idempotent s : toUpperCase (toUpperCase s) = toUpperCase s.
Proof.
  induction s as [|c s IH]; simpl; [reflexivity | now rewrite upperChar_idempotent, IH].
Qed.

Lemma toUpperCase_fixed s :
  allIn (fun c => (upperChar c =? c)%char) s = true -> toUpperCase s = s.
Proof.
  induction s as [|c s IH]; simpl; [reflexivity|].
  intros H. apply andb_true_iff in H as [Hc Hs].
  apply Ascii.eqb_eq in Hc. now rewrite Hc, IH.
Qed.

Lemma toUpperCase_app s t : toUpperCase (s ++ t) = toUpperCase s ++ toUpperCase t.
Proof. induction s as [|c s IH]; simpl; [reflexivity | now rewrite IH]. Qed.

Lemma toUpperCase_empty s : toUpperCase s = "" -> s = "".
Proof. destruct s; [reflexivity | discriminate]. Qed.

Lemma allWhiteSpace_toUpperCase s : allWhiteSpace (toUpperCase s) = allWhiteSpace s.
Proof.
  induction s as [|c s IH]; simpl; [reflexivity | now rewrite isWhiteSpace_upperChar, IH].
Qed.

Lemma trimStart_toUpperCase s : trimStart (toUpperCase s) = toUpperCase (trimStart s).
Proof.
  induction s as [|c s IH]; simpl; [reflexivity|].
  rewrite isWhiteSpace_upperChar. destruct (isWhiteSpace c); [exact IH | reflexivity].
Qed.

Lemma trimEnd_toUpperCase s : trimEnd (toUpperCase s) = toUpperCase (trimEnd s).
Proof.
  induction s as [|c s IH]; [reflexivity|].
  change (toUpperCase (String c s)) with (String (upperChar c) (toUpperCase s)).
  change (trimEnd (String (upperChar c) (toUpperCase s)))
    with (if allWhiteSpace (toUpperCase (String c s)) then ""
          else String (upperChar c) (trimEnd (toUpperCase s))).
  rewrite allWhiteSpace_toUpperCase.
  change (trimEnd (String c s))
    with (if allWhiteSpace (String c s) then "" else String c (trimEnd s)).
  destruct (allWhiteSpace (String c s)); [reflexivity | simpl; now rewrite IH].
Qed.

(** Trimming and upper-casing commute. *)
Lemma trim_toUpperCase s : trim (toUpperCase s) = toUpperCase (trim s).
Proof. unfold trim. now rewrite trimStart_toUpperCase, trimEnd_toUpperCase. Qed.

Lemma trimEnd_no_whitespace s :
  allIn (fun c => negb (isWhiteSpace c)) s = true -> trimEnd s = s.
Proof.
  induction s as [|c s IH]; [reflexivity|].
  intros H. simpl in H. apply andb_true_iff in H as [Hc Hs].
  apply negb_true_iff in Hc. simpl. rewrite Hc. simpl. now rewrite IH.
Qed.

(** A string of digits has nothing to trim. *)
Lemma trim_digits R s : allIn (isRadixDigit R) s = true -> trim s = s.
Proof.
  intros H. unfold trim.
  assert (W : allIn (fun c => negb (isWhiteSpace c)) s = true).
  { clear -H. induction s as [|c s IH]; [reflexivity|].
    simpl in *. apply andb_true_iff in H as [Hc Hs].
    now rewrite (isRadixDigit_not_whitespace _ _ Hc), IH. }
  assert (T : trimStart s = s).
  { destruct s as [|c s]; [reflexivity|]. simpl in *.
    apply andb_true_iff in W as [Hc _]. apply negb_true_iff in Hc. now rewrite Hc. }
  rewrite T. now apply trimEnd_no_whitespace.
Qed.

Lemma allIn_isRadixDigit_toUpperCase R s :
  allIn (isRadixDigit R) (toUpperCase s) = allIn (isRadixDigit R) s.
Proof.
  induction s as [|c s IH]; simpl; [reflexivity | now rewrite isRadixDigit_upperChar, IH].
Qed.

Lemma mathInt_toUpperCase R s a : mathInt R (toUpperCase s) a = mathInt R s a.
Proof.
  revert a. induction s as [|c s IH]; intros a; simpl; [reflexivity|].
  pose proof (digitValue_upperChar c) as G.
  destruct (digitValue (upperChar c)), (digitValue c); try discriminate; trivial.
  apply Z.eqb_eq in G. subst. apply IH.
Qed.

Lemma mathInt_nonneg R s a : 0 <= R -> 0 <= a -> 0 <= mathInt R s a.
Proof.
  intros HR. revert a. induction s as [|c s IH]; intros a Ha; simpl; [exact Ha|].
  destruct (digitValue c) as [d|] eqn:E; [|exact Ha].
  apply IH. apply digitValue_range in E. nia.
Qed.

Lemma digitPrefix_all R s : allIn (isRadixDigit R) s = true -> digitPrefix R s = s.
Proof.
  induction s as [|c s IH]; simpl; [reflexivity|].
  intros H. apply andb_true_iff in H as [Hc Hs]. now rewrite Hc, IH.
Qed.

(** ** The platform model on known results *)

Example parseInt_known :
  parseInt "1010" 2 = Finite 10 /\
  parseInt "ff" 16 = Finite 255 /\
  parseInt "0x1F" 16 = Finite 31 /\
  parseInt "  -12px" 10 = Finite (-12) /\
  parseInt "8" 8 = NaN /\
  parseInt "9007199254740993" 10 = Finite 9007199254740992 /\
  parseInt "9007199254740995" 10 = Finite 9007199254740996.
Proof. vm_compute. repeat split. Qed.

Example toString_known :
  Number_toString (Finite 255) 16 = "ff" /\
  Number_toString (Finite 0) 2 = "0" /\
  Number_toString (Finite (-10)) 2 = "-1010" /\
  Number_toString (Finite (2 ^ 64)) 10 = "18446744073709552000" /\
  Number_toString (Finite (2 ^ 64)) 16 = "10000000000000000" /\
  Number_toString (Finite (10 ^ 21)) 10 = "1e+21" /\
  Number_toString (Finite (2 ^ 70)) 10 = "1.1805916207174113e+21" /\
  Number_toString (roundMagnitude (10 ^ 23)) 10 = "1e+23".
Proof. vm_compute. repeat split. Qed.

Example trim_known :
  trim "  1 0  " = "1 0" /\ trim "   " = "" /\ toUpperCase "0xff" = "0XFF".
Proof. vm_compute. repeat split. Qed.

(** ** parseInt on validated input *)

Lemma splitSign_digit R c s :
  isRadixDigit R c = true -> splitSign (String c s) = (1, String c s).
Proof.
  intros H. destruct (isRadixDigit_value _ _ H) as (d & E & _).
  pose proof (digit_not_special c) as G. rewrite E in G.
  unfold splitSign.
  destruct (c =? "-")%char; [now rewrite andb_false_r in G|].
  destruct (c =? "+")%char; [now rewrite andb_false_r in G|]. reflexivity.
Qed.

Lemma startsWith0x_digits R s :
  R <= 16 -> allIn (isRadixDigit R) s = true -> startsWith0x s = false.
Proof.
  intros HR H. destruct s as [|c1 [|c2 s]]; try reflexivity.
  simpl in H. apply andb_true_iff in H as [_ H]. apply andb_true_iff in H as [H2 _].
  destruct (isRadixDigit_value _ _ H2) as (d & E & Hd).
  pose proof (x_is_digit_33 c2) as G. rewrite E in G.
  unfold startsWith0x.
  destruct ((c2 =? "x")%char || (c2 =? "X")%char).
  - apply Z.eqb_eq in G. lia.
  - now rewrite andb_false_r.
Qed.

(** On a non-empty string of radix digits [parseInt] reads every character:
    the result is the double nearest to the integer the digits denote. *)
Lemma parseInt_digits R s :
  2 <= R <= 16 ->
  testPlus (isRadixDigit R) s = true ->
  parseInt s R = roundMagnitude (mathInt R s 0).
Proof.
  intros HR H. destruct s as [|c s]; [discriminate|].
  simpl in H. pose proof H as Hall. apply andb_true_iff in H as [Hc Hs].
  unfold parseInt.
  assert (T : trimStart (String c s) = String c s).
  { simpl. now rewrite (isRadixDigit_not_whitespace _ _ Hc). }
  rewrite T, (splitSign_digit R) by exact Hc.
  replace ((R =? 0) || ((2 <=? R) && (R <=? 36))) with true
    by (symmetry; apply orb_true_iff; right; apply andb_true_iff; split; lia).
  replace (R =? 0) with false by (symmetry; lia).
  rewrite (startsWith0x_digits R (String c s)); [| lia | exact Hall].
  rewrite andb_false_r.
  rewrite digitPrefix_all by exact Hall.
  reflexivity.
Qed.

Lemma roundMagnitude_exact m : m <= 2 ^ 53 -> roundMagnitude m = Finite m.
Proof.
  intros H. destruct (Z.eq_dec m (2 ^ 53)) as [->|N]; [vm_compute; reflexivity|].
  unfold roundMagnitude. replace (m <? 2 ^ 53) with true by (symmetry; lia). reflexivity.
Qed.

Lemma magnitudeToString_exact z R : z <= 2 ^ 53 -> magnitudeToString z R = radixDigits R z.
Proof.
  intros H. unfold magnitudeToString.
  replace (2 ^ 53 <? z) with false by (symmetry; lia). now rewrite andb_false_r.
Qed.

(** ** Positional digits *)

Section Digits.

Variable R : Z.
Hypothesis R_min : 2 <= R.
Hypothesis R_max : R <= 36.

Lemma div_fuel f z :
  0 <= z < 2 ^ Z.of_nat (S f) -> 0 <= z / R < 2 ^ Z.of_nat f.
Proof.
  rewrite Nat2Z.inj_succ, Z.pow_succ_r by lia. intros Hz. split.
  - apply Z.div_pos; lia.
  - apply Z.div_lt_upper_bound; [lia|].
    assert (0 < 2 ^ Z.of_nat f) by (apply Z.pow_pos_nonneg; lia). nia.
Qed.

Lemma log2_fuel z : 0 <= z -> 0 <= z < 2 ^ Z.of_nat (S (Z.to_nat (Z.log2 z))).
Proof.
  intros Hz. rewrite Nat2Z.inj_succ, Z2Nat.id by apply Z.log2_nonneg.
  destruct (Z.eq_dec z 0) as [->|N]; [simpl; lia|].
  pose proof (Z.log2_spec z). lia.
Qed.

Lemma digitsFuel_step f z acc :
  digitsFuel (S f) R z acc =
  if z / R =? 0 then String (digitChar (z mod R)) acc
  else digitsFuel f R (z / R) (String (digitChar (z mod R)) acc).
Proof. reflexivity. Qed.

(** The accumulator is a suffix of the result. *)
Lemma digitsFuel_acc f z acc :
  digitsFuel f R z acc = digitsFuel f R z "" ++ acc.
Proof.
  revert z acc. induction f as [|f IH]; intros z acc; [reflexivity|].
  rewrite !digitsFuel_step. destruct (z / R =? 0); [reflexivity|].
  rewrite IH, (IH _ (String _ "")), append_assoc. reflexivity.
Qed.

(** More fuel than needed changes nothing. *)
Lemma digitsFuel_fuel f1 f2 z :
  0 <= z < 2 ^ Z.of_nat (S f1) -> 0 <= z < 2 ^ Z.of_nat (S f2) ->
  digitsFuel (S f1) R z "" = digitsFuel (S f2) R z "".
Proof.
  revert f2 z. induction f1 as [|f1 IH]; intros f2 z H1 H2.
  - rewrite (digitsFuel_step 0), (digitsFuel_step f2).
    apply div_fuel in H1. simpl in H1.
    replace (z / R =? 0) with true by (symmetry; lia). reflexivity.
  - rewrite (digitsFuel_step (S f1)), (digitsFuel_step f2).
    destruct (z / R =? 0) eqn:E; [reflexivity|].
    apply div_fuel in H1, H2. apply Z.eqb_neq in E.
    destruct f2 as [|f2]; [simpl in H2; lia|].
    rewrite (digitsFuel_acc (S f1) _ (String _ "")), (digitsFuel_acc (S f2) _ (String _ "")).
    now rewrite (IH f2).
Qed.

Lemma radixDigits_small d :
  0 <= d < R -> radixDigits R d = String (digitChar d) "".
Proof.
  intros Hd. unfold radixDigits. rewrite digitsFuel_step.
  rewrite Z.div_small, Z.mod_small by lia. reflexivity.
Qed.

(** Appending a digit to a positive number appends its character. *)
Lemma radixDigits_snoc a d :
  0 < a -> 0 <= d < R ->
  radixDigits R (a * R + d) = radixDigits R a ++ String (digitChar d) "".
Proof.
  intros Ha Hd. unfold radixDigits at 1. rewrite digitsFuel_step.
  assert (Q : (a * R + d) / R = a) by (rewrite Z.div_add_l by lia; rewrite Z.div_small; lia).
  assert (M : (a * R + d) mod R = d)
    by (rewrite Z.add_comm, Z.mod_add by lia; apply Z.mod_small; lia).
  rewrite Q, M. replace (a =? 0) with false by (symmetry; lia).
  pose proof (log2_fuel (a * R + d) ltac:(nia)) as F.
  apply div_fuel in F. rewrite Q in F.
  destruct (Z.to_nat (Z.log2 (a * R + d))) as [|n]; [simpl in F; lia|].
  rewrite (digitsFuel_acc (S n) _ (String _ "")). unfold radixDigits.
  now rewrite (digitsFuel_fuel n (Z.to_nat (Z.log2 a))) by (trivial; apply log2_fuel; lia).
Qed.

(** Reading the digits back gives the number. *)
Lemma mathInt_digitsFuel f z acc :
  0 <= z < 2 ^ Z.of_nat f ->
  mathInt R (digitsFuel f R z acc) 0 = mathInt R acc z.
Proof.
  revert z acc. induction f as [|f IH]; intros z acc Hz.
  - simpl in *. now replace z with 0 by lia.
  - rewrite digitsFuel_step.
    assert (Hm : 0 <= z mod R < R) by (apply Z.mod_pos_bound; lia).
    destruct (z / R =? 0) eqn:E.
    + apply Z.eqb_eq in E. simpl. rewrite digitValue_digitChar by lia.
      f_equal. rewrite (Z.div_mod z R) at 2 by lia. lia.
    + rewrite IH by (apply div_fuel; exact Hz).
      simpl. rewrite digitValue_digitChar by lia.
      f_equal. rewrite (Z.div_mod z R) at 3 by lia. lia.
Qed.

Lemma mathInt_radixDigits z : 0 <= z -> mathInt R (radixDigits R z) 0 = z.
Proof. intros Hz. unfold radixDigits. now rewrite mathInt_digitsFuel by (apply log2_fuel; lia). Qed.

(** The digits start with a character that is "0" only for zero, and all
    are characters of digits below [R]. *)
Lemma digitsFuel_shape (cls : ascii -> bool) f z acc :
  (forall d, 0 <= d < R -> cls (digitChar d) = true) ->
  0 <= z < 2 ^ Z.of_nat (S f) ->
  exists c D,
    digitsFuel (S f) R z acc = String c (D ++ acc) /\
    allIn cls (String c D) = true /\
    ((c =? "0")%char = true -> z = 0 /\ D = "").
Proof.
  intros Hcls. revert z acc. induction f as [|f IH]; intros z acc Hz.
  - rewrite digitsFuel_step. pose proof (div_fuel _ _ Hz) as Hq. simpl in Hq, Hz.
    replace (z / R =? 0) with true by (symmetry; lia).
    rewrite Z.mod_small by lia.
    exists (digitChar z), "". simpl. rewrite Hcls by lia.
    split; [reflexivity | split; [reflexivity|]].
    intros H0. rewrite digitChar_zero in H0 by lia. split; [lia | reflexivity].
  - rewrite digitsFuel_step.
    assert (Hm : 0 <= z mod R < R) by (apply Z.mod_pos_bound; lia).
    destruct (z / R =? 0) eqn:E.
    + apply Z.eqb_eq in E.
      exists (digitChar (z mod R)), "". simpl. rewrite Hcls by lia.
      split; [reflexivity | split; [reflexivity|]].
      intros H0. rewrite digitChar_zero in H0 by lia.
      split; [|reflexivity]. rewrite (Z.div_mod z R) by lia. lia.
    + apply Z.eqb_neq in E.
      destruct (IH (z / R) (String (digitChar (z mod R)) acc) (div_fuel _ _ Hz))
        as (c & D & EQ & Hall & Hzero).
      exists c, (D ++ String (digitChar (z mod R)) "").
      rewrite EQ, append_assoc. simpl in Hall |- *.
      apply andb_true_iff in Hall as [Hc HD].
      rewrite Hc, allIn_app, HD. simpl. rewrite Hcls by lia.
      split; [reflexivity | split; [reflexivity|]].
      intros Hc0. destruct (Hzero Hc0). lia.
Qed.

Lemma radixDigits_shape (cls : ascii -> bool) z :
  (forall d, 0 <= d < R -> cls (digitChar d) = true) ->
  0 <= z ->
  exists c D,
    radixDigits R z = String c D /\
    allIn cls (String c D) = true /\
    ((c =? "0")%char = true -> z = 0 /\ D = "").
Proof.
  intros Hcls Hz.
  destruct (digitsFuel_shape cls _ z "" Hcls (log2_fuel z Hz)) as (c & D & EQ & H).
  exists c, D. split; [|exact H].
  unfold radixDigits. now rewrite EQ, append_nil_r.
Qed.

End Digits.

(** ** Printing what was parsed *)

Lemma digitValue_zero c d : digitValue c = Some d -> (c =? "0")%char = (d =? 0).
Proof.
  intros E.
  assert (G : match digitValue c with
              | Some d => Bool.eqb (c =? "0")%char (d =? 0)
              | None => true
              end = true) by by_ascii_cases c.
  rewrite E in G. now apply Bool.eqb_prop in G.
Qed.

Lemma upper_digitChar c d :
  digitValue c = Some d -> upperChar (digitChar d) = upperChar c.
Proof.
  intros E. pose proof (digitChar_of_digitValue c) as G. rewrite E in G.
  now apply Ascii.eqb_eq.
Qed.

Section RoundTrip.

Variable R : Z.
Hypothesis R_min : 2 <= R.
Hypothesis R_max : R <= 36.

(** Digits read after a positive start are printed after the start's. *)
Lemma print_mathInt_after s : forall a,
  0 < a ->
  allIn (isRadixDigit R) s = true ->
  toUpperCase (radixDigits R (mathInt R s a)) =
  toUpperCase (radixDigits R a) ++ toUpperCase s.
Proof.
  induction s as [|c s IH]; intros a Ha H.
  - simpl. now rewrite append_nil_r.
  - simpl in H. apply andb_true_iff in H as [Hc Hs].
    destruct (isRadixDigit_value _ _ Hc) as (d & E & Hd).
    simpl. rewrite E. rewrite IH by (trivial; nia).
    rewrite radixDigits_snoc by (trivial; lia).
    rewrite toUpperCase_app, append_assoc. simpl.
    now rewrite (upper_digitChar c d E).
Qed.

(** Printing the value of a digit string gives the string back, upper case
    and without its leading zeros. *)
Lemma print_mathInt s :
  testPlus (isRadixDigit R) s = true ->
  toUpperCase (radixDigits R (mathInt R s 0)) = stripLeadingZeros (toUpperCase s).
Proof.
  induction s as [|c s IH]; [discriminate|].
  intros H. simpl in H. apply andb_true_iff in H as [Hc Hs].
  destruct (isRadixDigit_value _ _ Hc) as (d & E & Hd).
  change (mathInt R (String c s) 0) with
    (match digitValue c with Some d => mathInt R s (0 * R + d) | None => 0 end).
  rewrite E. replace (0 * R + d) with d by lia.
  destruct s as [|c2 s].
  - simpl. rewrite radixDigits_small by lia. simpl. now rewrite (upper_digitChar c d E).
  - change (toUpperCase (String c (String c2 s)))
      with (String (upperChar c) (String (upperChar c2) (toUpperCase s))).
    change (stripLeadingZeros (String (upperChar c) (String (upperChar c2) (toUpperCase s))))
      with (if (upperChar c =? "0")%char
            then stripLeadingZeros (toUpperCase (String c2 s))
            else toUpperCase (String c (String c2 s))).
    rewrite upperChar_zero, (digitValue_zero c d E).
    destruct (d =? 0) eqn:Z0.
    + apply Z.eqb_eq in Z0. subst d. apply IH. exact Hs.
    + apply Z.eqb_neq in Z0.
      rewrite print_mathInt_after by (trivial; lia).
      rewrite radixDigits_small by lia. simpl. now rewrite (upper_digitChar c d E).
Qed.

End RoundTrip.

(** Digits of a radix up to ten are not changed by upper-casing. *)
Lemma radixDigits_decimal_upper R z :
  2 <= R <= 10 -> 0 <= z -> toUpperCase (radixDigits R z) = radixDigits R z.
Proof.
  intros HR Hz.
  destruct (radixDigits_shape R ltac:(lia) ltac:(lia)
              (fun c => (upperChar c =? c)%char) z) as (c & D & EQ & Hall & _); trivial.
  - intros d Hd. by_range_cases d 10%nat.
  - rewrite EQ. now apply toUpperCase_fixed.
Qed.

Lemma alphabet_mono R R' c : R <= R' -> alphabet R c = true -> alphabet R' c = true.
Proof.
  unfold alphabet. intros HR H.
  apply orb_true_iff in H as [H|H]; apply andb_true_iff in H as [H1 H2];
    apply orb_true_iff; [left | right]; apply andb_true_iff; split; trivial; lia.
Qed.

Lemma allIn_toUpperCase cls s :
  allIn cls (toUpperCase s) = allIn (fun c => cls (upperChar c)) s.
Proof. induction s as [|c s IH]; simpl; [reflexivity | now rewrite IH]. Qed.

(** The digits that [Number.prototype.toString] prints for [0 <= z], upper
    case, are the numeral of [z]. *)
Lemma numeral_radixDigits R z :
  2 <= R <= 16 -> 0 <= z -> numeral R (toUpperCase (radixDigits R z)) z.
Proof.
  intros HR Hz.
  destruct (radixDigits_shape R ltac:(lia) ltac:(lia)
              (fun c => alphabet R (upperChar c)) z) as (c & D & EQ & Hall & Hzero); trivial.
  { intros d Hd. apply (alphabet_mono (d + 1)); [lia|].
    apply alphabet_upper_digitChar. lia. }
  split; [|split].
  - rewrite EQ. simpl. rewrite <- allIn_toUpperCase in Hall. exact Hall.
  - rewrite mathInt_toUpperCase. apply mathInt_radixDigits; lia.
  - rewrite EQ. simpl. destruct (c =? "0")%char eqn:C0.
    + destruct (Hzero eq_refl) as [_ ->]. apply Ascii.eqb_eq in C0. subst c. now left.
    + right. exists (upperChar c), (toUpperCase D). split; [reflexivity|].
      intros C. rewrite <- upperChar_zero in C0. rewrite C in C0. discriminate.
Qed.

(** ** handleInput *)

Lemma roundMagnitude_passes m :
  0 <= m -> isNaN (roundMagnitude m) = false /\ ltZero (roundMagnitude m) = false.
Proof.
  intros Hm. unfold roundMagnitude.
  destruct (m <? 2 ^ 53); [simpl; split; [reflexivity | lia]|].
  match goal with |- context [if ?b then Infinity else Finite ?v] =>
    destruct b; [split; reflexivity|]; assert (0 <= v) end.
  { apply Z.shiftl_nonneg.
    assert (0 <= Z.shiftr m (Z.log2 m - 52)) by (apply Z.shiftr_nonneg; exact Hm).
    destruct (_ || _); lia. }
  simpl. split; [reflexivity | lia].
Qed.

Lemma systems_radix sourceType R :
  In (sourceType, R) systems -> In R [2; 8; 10; 16] /\ 2 <= R <= 16.
Proof.
  simpl. intros [H|[H|[H|[H|[]]]]]; inversion H; subst; split; try lia; simpl; tauto.
Qed.

(** The [switch]: each tag validates with its radix's digit test and then
    calls [parseInt] with that radix. *)
Lemma toDecimalValue_systems sourceType R value :
  In (sourceType, R) systems ->
  (testPlus (isRadixDigit R) value = true ->
   toDecimalValue sourceType value = Normal (parseInt value R)) /\
  (testPlus (isRadixDigit R) value = false ->
   exists e, toDecimalValue sourceType value = Throw e).
Proof.
  simpl. intros [H|[H|[H|[H|[]]]]]; inversion H; subst; clear H.
  - change (toDecimalValue "binary" value)
      with (if negb (testPlus isBinaryDigit value)
            then Throw (Error "Invalid binary number") else Normal (parseInt value 2)).
    rewrite (testPlus_ext _ _ value isBinaryDigit_radix).
    split; intros ->; simpl; eauto.
  - change (toDecimalValue "octal" value)
      with (if negb (testPlus isOctalDigit value)
            then Throw (Error "Invalid octal number") else Normal (parseInt value 8)).
    rewrite (testPlus_ext _ _ value isOctalDigit_radix).
    split; intros ->; simpl; eauto.
  - change (toDecimalValue "decimal" value)
      with (if negb (testPlus isDecimalDigit value)
            then Throw (Error "Invalid decimal number") else Normal (parseInt value 10)).
    rewrite (testPlus_ext _ _ value isDecimalDigit_radix).
    split; intros ->; simpl; eauto.
  - change (toDecimalValue "hexadecimal" value)
      with (if negb (testPlus isHexDigit value)
            then Throw (Error "Invalid hexadecimal number") else Normal (parseInt value 16)).
    rewrite (testPlus_ext _ _ value isHexDigit_radix).
    split; intros ->; simpl; eauto.
Qed.

(** Input whose cleaned form is a non-empty digit string of the radix is
    converted: the number shown is the double nearest to its value. *)
Lemma handleInput_accepts sourceType R value this :
  In (sourceType, R) systems ->
  testPlus (isRadixDigit R) (toUpperCase (trim value)) = true ->
  handleInput sourceType value this =
  updateResults (roundMagnitude (mathInt R (toUpperCase (trim value)) 0)) sourceType this.
Proof.
  intros Hsys Hv. unfold handleInput, checkedDecimalValue.
  destruct (toUpperCase (trim value)) as [|c v] eqn:E; [discriminate|].
  destruct (toDecimalValue_systems _ _ (String c v) Hsys) as [Hok _].
  rewrite (Hok Hv).
  rewrite parseInt_digits by (trivial; apply (systems_radix _ _ Hsys)).
  assert (0 <= mathInt R (String c v) 0) as Hm
    by (apply mathInt_nonneg; [destruct (systems_radix _ _ Hsys)|]; lia).
  destruct (roundMagnitude_passes _ Hm) as [-> ->]. reflexivity.
Qed.

(** Input whose cleaned form is not empty and not a digit string of the
    radix ends in [showConversionError]. *)
Lemma handleInput_rejects sourceType R value this :
  In (sourceType, R) systems ->
  toUpperCase (trim value) <> "" ->
  testPlus (isRadixDigit R) (toUpperCase (trim value)) = false ->
  exists msg, handleInput sourceType value this =
              showConversionError (Converter.console_error msg this).
Proof.
  intros Hsys Hne Hv. unfold handleInput, checkedDecimalValue.
  destruct (toUpperCase (trim value)) as [|c v] eqn:E; [congruence|].
  destruct (toDecimalValue_systems _ _ (String c v) Hsys) as [_ Hbad].
  destruct (Hbad Hv) as [e ->]. eauto.
Qed.

Lemma updateResults_shown x sourceType this :
  results (updateResults x sourceType this) = shown (conversionsOf x) /\
  currentValues (updateResults x sourceType this) = Some (conversionsOf x) /\
  inputs (updateResults x sourceType this) = inputs this /\
  console (updateResults x sourceType this) = console this.
Proof. repeat split. Qed.

Lemma conversionsOf_exact n :
  0 <= n <= 2 ^ 53 ->
  conversionsOf (Finite n) =
  mkConversions (radixDigits 2 n) (radixDigits 8 n) (radixDigits 10 n)
                (toUpperCase (radixDigits 16 n)).
Proof.
  intros Hn. unfold conversionsOf, Number_toString.
  replace (n <? 0) with false by (symmetry; lia).
  now rewrite !magnitudeToString_exact by lia.
Qed.

(** An upper-case string of the alphabet is its own cleaned form. *)
Lemma alphabet_clean R value :
  In R [2; 8; 10; 16] ->
  testPlus (alphabet R) value = true ->
  toUpperCase (trim value) = value /\ testPlus (isRadixDigit R) value = true.
Proof.
  intros HR H.
  assert (A : allIn (isRadixDigit R) value = true /\
              allIn (fun c => (upperChar c =? c)%char) value = true).
  { apply testPlus_allIn in H. clear -H HR.
    induction value as [|c v IH]; [split; reflexivity|].
    simpl in H. apply andb_true_iff in H as [Hc Hv].
    rewrite (alphabet_radix R c HR) in Hc. apply andb_true_iff in Hc as [H1 H2].
    destruct (IH Hv) as [I1 I2]. simpl. now rewrite H1, H2, I1, I2. }
  destruct A as [A1 A2].
  rewrite (trim_digits R) by exact A1. split; [now apply toUpperCase_fixed|].
  destruct value; [discriminate | exact A1].
Qed.

(** ** The radix converter: conversion *)

(** C1 (amended).  For each of the four source radix tags and every input
    string over the radix's legal alphabet whose value is at most 2^53,
    [handleInput] shows, in the four result fields and in the copy buffer,
    the numerals of that one value in radix 2, 8, 10 and 16 (hexadecimal
    upper case).  Binary "1010" gives decimal "10", octal "12" and
    hexadecimal "A"; decimal "493" gives octal "755". *)
Theorem handleInput_renders_all_radixes :
  (forall sourceType R value this,
      In (sourceType, R) systems ->
      testPlus (alphabet R) value = true ->
      mathInt R value 0 <= 2 ^ 53 ->
      exists b o d h,
        results (handleInput sourceType value this) = shown (mkConversions b o d h) /\
        currentValues (handleInput sourceType value this) = Some (mkConversions b o d h) /\
        numeral 2 b (mathInt R value 0) /\
        numeral 8 o (mathInt R value 0) /\
        numeral 10 d (mathInt R value 0) /\
        numeral 16 h (mathInt R value 0)) /\
  (forall this,
      results (handleInput "binary" "1010" this) =
      shown (mkConversions "1010" "12" "10" "A")) /\
  (forall this,
      text (octal (results (handleInput "decimal" "493" this))) = "755").
Proof.
  split; [|split; intros this; reflexivity].
  intros sourceType R value this Hsys Hval Hmax.
  destruct (systems_radix _ _ Hsys) as [HR Hbounds].
  destruct (alphabet_clean R value HR Hval) as [Hclean Hdigits].
  assert (Hn : 0 <= mathInt R value 0) by (apply mathInt_nonneg; lia).
  rewrite (handleInput_accepts sourceType R) by (trivial; now rewrite Hclean).
  rewrite Hclean, roundMagnitude_exact by exact Hmax.
  destruct (updateResults_shown (Finite (mathInt R value 0)) sourceType this)
    as (-> & -> & _).
  rewrite conversionsOf_exact by lia.
  do 4 eexists. split; [reflexivity | split; [reflexivity|]].
  rewrite <- (radixDigits_decimal_upper 2), <- (radixDigits_decimal_upper 8),
    <- (radixDigits_decimal_upper 10) by lia.
  repeat split; apply numeral_radixDigits; lia.
Qed.

Lemma handleInput_renders_all_radixes_witness :
  exists b o d h,
    results (handleInput "octal" "755" fresh) = shown (mkConversions b o d h) /\
    currentValues (handleInput "octal" "755" fresh) = Some (mkConversions b o d h) /\
    numeral 2 b (mathInt 8 "755" 0) /\
    numeral 8 o (mathInt 8 "755" 0) /\
    numeral 10 d (mathInt 8 "755" 0) /\
    numeral 16 h (mathInt 8 "755" 0).
Proof.
  apply (proj1 handleInput_renders_all_radixes "octal" 8 "755" fresh).
  - right; left; reflexivity.
  - reflexivity.
  - vm_compute. discriminate.
Defined.

(** C1 as stated fails above 2^53.  The decimal input "9007199254740993"
    is over the decimal alphabet, and the decimal field then shows
    "9007199254740992", which is not the numeral of the value entered.  For
    the decimal input "18446744073709551616" the binary field shows the
    numeral of that value and the decimal field the numeral of another
    one.  For 1 followed by 309 zeros every field shows Infinity. *)
Lemma handleInput_rounds_above_2_53 :
  In ("decimal", 10) systems /\
  (testPlus (alphabet 10) "9007199254740993" = true /\
   text (decimal (results (handleInput "decimal" "9007199254740993" fresh)))
     = "9007199254740992" /\
   ~ numeral 10 "9007199254740992" (mathInt 10 "9007199254740993" 0)) /\
  (testPlus (alphabet 10) "18446744073709551616" = true /\
   mathInt 2 (text (binary (results (handleInput "decimal" "18446744073709551616" fresh)))) 0
     = 18446744073709551616 /\
   mathInt 10 (text (decimal (results (handleInput "decimal" "18446744073709551616" fresh)))) 0
     = 18446744073709552000) /\
  (testPlus (alphabet 10) tenTo309 = true /\
   results (handleInput "decimal" tenTo309 fresh)
     = shown (mkConversions "Infinity" "Infinity" "Infinity" "INFINITY")).
Proof.
  split; [simpl; tauto|]. split; [|split].
  - split; [reflexivity|]. split; [vm_compute; reflexivity|].
    intros (_ & H & _). vm_compute in H. discriminate.
  - split; [reflexivity|]. split; vm_compute; reflexivity.
  - split; vm_compute; reflexivity.
Qed.

Lemma field_systems sourceType R (fs : Fields) :
  In (sourceType, R) systems ->
  field sourceType fs =
  Some (if R =? 2 then binary fs else if R =? 8 then octal fs
        else if R =? 10 then decimal fs else hexadecimal fs).
Proof. simpl. intros [H|[H|[H|[H|[]]]]]; inversion H; subst; reflexivity. Qed.

(** C2 (amended).  For each of the four radixes and every non-empty input
    string of digits of the radix (hexadecimal letters in either case)
    whose value is at most 2^53, the result field of the source radix shows
    the input again, upper case and without its leading zeros. *)
Theorem handleInput_round_trip sourceType R value this :
  In (sourceType, R) systems ->
  testPlus (fun c => alphabet R (upperChar c)) value = true ->
  mathInt R value 0 <= 2 ^ 53 ->
  option_map text (field sourceType (results (handleInput sourceType value this)))
  = Some (stripLeadingZeros (toUpperCase value)).
Proof.
  intros Hsys Hval Hmax.
  destruct (systems_radix _ _ Hsys) as [HR Hbounds].
  assert (Hdigits : testPlus (isRadixDigit R) value = true).
  { rewrite <- Hval. apply testPlus_ext. intros c.
    now rewrite (alphabet_radix R _ HR), isRadixDigit_upperChar,
      upperChar_idempotent_b, andb_true_r. }
  pose proof (trim_digits R value (testPlus_allIn _ _ Hdigits)) as Htrim.
  assert (Hup : testPlus (isRadixDigit R) (toUpperCase value) = true).
  { destruct value; [discriminate|].
    change (allIn (isRadixDigit R) (toUpperCase (String a value)) = true).
    rewrite allIn_isRadixDigit_toUpperCase. exact Hdigits. }
  assert (Hn : 0 <= mathInt R value 0) by (apply mathInt_nonneg; lia).
  rewrite (handleInput_accepts sourceType R) by (trivial; now rewrite Htrim).
  rewrite Htrim, mathInt_toUpperCase, roundMagnitude_exact by exact Hmax.
  destruct (updateResults_shown (Finite (mathInt R value 0)) sourceType this)
    as (-> & _).
  rewrite conversionsOf_exact by lia.
  rewrite (field_systems _ _ _ Hsys).
  pose proof (print_mathInt R ltac:(lia) ltac:(lia) value Hdigits) as P.
  simpl in HR. destruct HR as [<-|[<-|[<-|[<-|[]]]]]; simpl; f_equal;
    try rewrite radixDigits_decimal_upper in P by lia; exact P.
Qed.

Lemma handleInput_round_trip_witness :
  option_map text (field "hexadecimal" (results (handleInput "hexadecimal" "00ff" fresh)))
  = Some (stripLeadingZeros (toUpperCase "00ff")).
Proof.
  apply (handleInput_round_trip "hexadecimal" 16 "00ff" fresh).
  - do 3 right; left; reflexivity.
  - reflexivity.
  - vm_compute. discriminate.
Defined.

(** C2 as stated fails above 2^53: the valid decimal input
    "9007199254740993" comes back as "9007199254740992", which is not its
    case and leading-zero normal form. *)
Lemma round_trip_fails_above_2_53 :
  In ("decimal", 10) systems /\
  testPlus (fun c => alphabet 10 (upperChar c)) "9007199254740993" = true /\
  option_map text
    (field "decimal" (results (handleInput "decimal" "9007199254740993" fresh)))
  <> Some (stripLeadingZeros (toUpperCase "9007199254740993")).
Proof.
  split; [simpl; tauto|]. split; [reflexivity|]. vm_compute. discriminate.
Qed.

(** ** The radix converter: empty and illegal input *)

(** C5.  Whatever the field, input that is empty after trimming sets the
    four result fields to the placeholder "-" without the error class,
    empties the copy buffer and reports no error. *)
Theorem handleInput_empty_clears sourceType value this :
  trim value = "" ->
  results (handleInput sourceType value this) = placeholders /\
  currentValues (handleInput sourceType value this) = None /\
  console (handleInput sourceType value this) = console this /\
  inputs (handleInput sourceType value this) = inputs this.
Proof. intros H. unfold handleInput. rewrite H. repeat split. Qed.

Lemma handleInput_empty_clears_witness :
  results (handleInput "octal" "   " fresh) = placeholders /\
  currentValues (handleInput "octal" "   " fresh) = None /\
  console (handleInput "octal" "   " fresh) = console fresh /\
  inputs (handleInput "octal" "   " fresh) = inputs fresh.
Proof. apply (handleInput_empty_clears "octal" "   " fresh). reflexivity. Defined.

(** The error that the [switch] throws for text that is not a digit string
    of the radix. *)
Lemma toDecimalValue_invalid sourceType R value :
  In (sourceType, R) systems ->
  testPlus (isRadixDigit R) value = false ->
  toDecimalValue sourceType value
  = Throw (Error ("Invalid " ++ sourceType ++ " number")).
Proof.
  simpl. intros [H|[H|[H|[H|[]]]]]; inversion H; subst; clear H; intros Hv.
  - change (toDecimalValue "binary" value)
      with (if negb (testPlus isBinaryDigit value)
            then Throw (Error "Invalid binary number") else Normal (parseInt value 2)).
    now rewrite (testPlus_ext _ _ value isBinaryDigit_radix), Hv.
  - change (toDecimalValue "octal" value)
      with (if negb (testPlus isOctalDigit value)
            then Throw (Error "Invalid octal number") else Normal (parseInt value 8)).
    now rewrite (testPlus_ext _ _ value isOctalDigit_radix), Hv.
  - change (toDecimalValue "decimal" value)
      with (if negb (testPlus isDecimalDigit value)
            then Throw (Error "Invalid decimal number") else Normal (parseInt value 10)).
    now rewrite (testPlus_ext _ _ value isDecimalDigit_radix), Hv.
  - change (toDecimalValue "hexadecimal" value)
      with (if negb (testPlus isHexDigit value)
            then Throw (Error "Invalid hexadecimal number") else Normal (parseInt value 16)).
    now rewrite (testPlus_ext _ _ value isHexDigit_radix), Hv.
Qed.

(** C6 (amended).  For input of ASCII characters that, trimmed and
    upper-cased, is not empty and holds a character outside the legal
    alphabet of the source radix, [handleInput] throws the validation
    error of the source type, which is logged as a conversion error,
    shows the error marker in all four result fields and empties the copy
    buffer: no field keeps a conversion result.  The input fields are left
    as they are. *)
Theorem handleInput_illegal_shows_error sourceType R value this :
  In (sourceType, R) systems ->
  isASCII value = true ->
  toUpperCase (trim value) <> "" ->
  allIn (alphabet R) (toUpperCase (trim value)) = false ->
  toDecimalValue sourceType (toUpperCase (trim value))
  = Throw (Error ("Invalid " ++ sourceType ++ " number")) /\
  results (handleInput sourceType value this) = errorMarkers /\
  currentValues (handleInput sourceType value this) = None /\
  console (handleInput sourceType value this)
  = (console this ++ [("Conversion error: Invalid " ++ sourceType ++ " number")%string])%list /\
  inputs (handleInput sourceType value this) = inputs this.
Proof.
  intros Hsys _ Hne Hbad.
  destruct (systems_radix _ _ Hsys) as [HR _].
  assert (Hv : testPlus (isRadixDigit R) (toUpperCase (trim value)) = false).
  { rewrite <- Hbad, (testPlus_not_empty _ _ Hne).
    rewrite !allIn_toUpperCase. apply allIn_ext. intros c.
    now rewrite (alphabet_radix R _ HR), upperChar_idempotent_b, andb_true_r. }
  pose proof (toDecimalValue_invalid sourceType R _ Hsys Hv) as T.
  split; [exact T|].
  unfold handleInput, checkedDecimalValue.
  destruct (toUpperCase (trim value)) as [|c v]; [congruence|].
  rewrite T. repeat split.
Qed.

Lemma handleInput_illegal_shows_error_witness :
  toDecimalValue "binary" (toUpperCase (trim " 102 "))
  = Throw (Error ("Invalid " ++ "binary" ++ " number")) /\
  results (handleInput "binary" " 102 " fresh) = errorMarkers /\
  currentValues (handleInput "binary" " 102 " fresh) = None /\
  console (handleInput "binary" " 102 " fresh)
  = (console fresh ++ [("Conversion error: Invalid " ++ "binary" ++ " number")%string])%list /\
  inputs (handleInput "binary" " 102 " fresh) = inputs fresh.
Proof.
  apply (handleInput_illegal_shows_error "binary" 2 " 102 " fresh).
  - left; reflexivity.
  - reflexivity.
  - vm_compute. discriminate.
  - reflexivity.
Defined.

(** C6 as stated fails: the empty string is not rejected, its result
    fields show the placeholder; and input with characters outside the
    alphabet that trimming or upper-casing removes is converted. *)
Lemma handleInput_empty_is_not_an_error :
  results (handleInput "binary" "" fresh) = placeholders /\
  placeholders <> errorMarkers /\
  allIn (alphabet 16) " ff " = false /\
  results (handleInput "hexadecimal" " ff " fresh)
  = shown (mkConversions "11111111" "377" "255" "FF").
Proof.
  split; [reflexivity|]. split; [discriminate|]. split; [reflexivity|].
  vm_compute. reflexivity.
Qed.

(** ** The radix converter: letter case *)

(** C9.  Hexadecimal input is case-insensitive: a string of hexadecimal
    digits in either case gives the same state as its upper-case form;
    when not empty it is accepted, and the results are those of the double
    nearest to its value.  Lower-case "ff" gives decimal "255" and binary
    "11111111". *)
Theorem hexadecimal_is_case_insensitive :
  (forall s this,
      allIn isHexDigit s = true ->
      handleInput "hexadecimal" s this = handleInput "hexadecimal" (toUpperCase s) this) /\
  (forall s this,
      testPlus isHexDigit s = true ->
      handleInput "hexadecimal" s this =
      updateResults (roundMagnitude (mathInt 16 s 0)) "hexadecimal" this /\
      isNaN (roundMagnitude (mathInt 16 s 0)) = false) /\
  (forall this,
      text (decimal (results (handleInput "hexadecimal" "ff" this))) = "255" /\
      text (binary (results (handleInput "hexadecimal" "ff" this))) = "11111111").
Proof.
  split; [|split].
  - intros s this _. unfold handleInput.
    now rewrite trim_toUpperCase, toUpperCase_idempotent.
  - intros s this H.
    rewrite (testPlus_ext _ _ s isHexDigit_radix) in H.
    pose proof (trim_digits 16 s (testPlus_allIn _ _ H)) as Htrim.
    assert (Hup : testPlus (isRadixDigit 16) (toUpperCase s) = true).
    { destruct s; [discriminate|].
      change (allIn (isRadixDigit 16) (toUpperCase (String a s)) = true).
      rewrite allIn_isRadixDigit_toUpperCase. exact H. }
    rewrite (handleInput_accepts "hexadecimal" 16)
      by (rewrite ?Htrim; trivial; simpl; tauto).
    rewrite Htrim, mathInt_toUpperCase. split; [reflexivity|].
    apply roundMagnitude_passes, mathInt_nonneg; lia.
  - intros this. split; reflexivity.
Qed.

Lemma hexadecimal_is_case_insensitive_witness :
  handleInput "hexadecimal" "c0ffEE" fresh = handleInput "hexadecimal" (toUpperCase "c0ffEE") fresh /\
  handleInput "hexadecimal" "c0ffEE" fresh =
    updateResults (roundMagnitude (mathInt 16 "c0ffEE" 0)) "hexadecimal" fresh.
Proof.
  split.
  - apply (proj1 hexadecimal_is_case_insensitive "c0ffEE" fresh). reflexivity.
  - apply (proj1 (proj2 hexadecimal_is_case_insensitive) "c0ffEE" fresh). reflexivity.
Defined.

(** ** The radix converter: the copy buffer *)

Lemma handleInput_cases sourceType value this :
  handleInput sourceType value this = clearResults this \/
  (exists msg, handleInput sourceType value this =
               showConversionError (Converter.console_error msg this)) \/
  (exists x, isNaN x = false /\ ltZero x = false /\
             handleInput sourceType value this = updateResults x sourceType this).
Proof.
  unfold handleInput, checkedDecimalValue.
  destruct (toUpperCase (trim value)) as [|c v]; [now left | right].
  destruct (toDecimalValue sourceType (String c v)) as [x|e]; [|left; eauto].
  destruct (isNaN x || ltZero x) eqn:E; [left; eauto|].
  apply orb_false_iff in E as [E1 E2]. right. exists x. auto.
Qed.

Lemma step_consistent this a : consistent this -> consistent (step this a).
Proof.
  intros H. destruct a as [sourceType value| |clipboardWrites]; simpl.
  - destruct (handleInput_cases sourceType value this) as [->|[[msg ->]|(x & N & L & ->)]].
    + left. reflexivity.
    + right. reflexivity.
    + split; [reflexivity | exists x; auto].
  - left. reflexivity.
  - unfold copyResults, consistent in *.
    destruct (currentValues this) as [v|] eqn:E; [destruct clipboardWrites|];
      simpl; rewrite E; exact H.
Qed.

Lemma Reachable_consistent this : Reachable this -> consistent this.
Proof.
  induction 1 as [pageInputs pageResults | this a _ IH].
  - left. reflexivity.
  - apply step_consistent, IH.
Qed.

(** A conversion never looks like the placeholder or the error marker. *)
Lemma shown_conversion_distinct x :
  isNaN x = false -> ltZero x = false ->
  shown (conversionsOf x) <> placeholders /\ shown (conversionsOf x) <> errorMarkers.
Proof.
  intros N L. split; [|discriminate].
  intros H. injection H as H _ _ _.
  destruct x as [| | |z]; try discriminate.
  simpl in L, H. rewrite L in H.
  unfold magnitudeToString in H. simpl in H.
  destruct (radixDigits_shape 2 ltac:(lia) ltac:(lia)
              (fun c => negb (c =? "-")%char) z) as (c & D & EQ & Hall & _).
  - intros d Hd. by_range_cases d 2%nat.
  - lia.
  - rewrite EQ in H. injection H as -> _. discriminate.
Qed.

(** C10.  In every state the converter can reach, the copy buffer
    [currentValues] is non-null exactly when the result fields display a
    successful conversion, and then it holds what they display; when it is
    null they show the placeholder or the error marker.
    [showConversionError] and [clearResults] set it to null, and
    [copyResults] then copies nothing and reports that there are no results
    to copy. *)
Theorem copy_buffer_tracks_display :
  (forall this,
      Reachable this ->
      (currentValues this <> None <-> displaysConversion this) /\
      (forall v, currentValues this = Some v -> results this = shown v) /\
      (currentValues this = None ->
       results this = placeholders \/ results this = errorMarkers)) /\
  (forall this,
      currentValues (showConversionError this) = None /\
      currentValues (clearResults this) = None) /\
  (forall this clipboardWrites,
      currentValues this = None ->
      copyResults clipboardWrites this =
        (Fulfilled tt, showCopyMessage "No results to copy" this) /\
      clipboard (snd (copyResults clipboardWrites this)) = clipboard this).
Proof.
  split; [|split].
  - intros this HR. apply Reachable_consistent in HR. unfold consistent in HR.
    unfold displaysConversion.
    destruct (currentValues this) as [v|].
    + destruct HR as (Hres & x & N & L & ->).
      split; [|split].
      * split; [intros _; exists x; auto | discriminate].
      * intros v' [= <-]. exact Hres.
      * discriminate.
    + split; [|split].
      * split; [congruence|]. intros (x & N & L & Hres).
        destruct (shown_conversion_distinct x N L) as [P E].
        destruct HR as [H|H]; rewrite H in Hres; congruence.
      * discriminate.
      * intros _. exact HR.
  - intros this. split; reflexivity.
  - intros this clipboardWrites H. unfold copyResults. rewrite H. split; reflexivity.
Qed.

Lemma copy_buffer_tracks_display_witness :
  ((currentValues (step fresh (TypeIn "binary" "12")) <> None
    <-> displaysConversion (step fresh (TypeIn "binary" "12"))) /\
   (forall v, currentValues (step fresh (TypeIn "binary" "12")) = Some v ->
              results (step fresh (TypeIn "binary" "12")) = shown v) /\
   (currentValues (step fresh (TypeIn "binary" "12")) = None ->
    results (step fresh (TypeIn "binary" "12")) = placeholders \/
    results (step fresh (TypeIn "binary" "12")) = errorMarkers)) /\
  copyResults true (step fresh (TypeIn "binary" "12")) =
    (Fulfilled tt, showCopyMessage "No results to copy" (step fresh (TypeIn "binary" "12"))).
Proof.
  split.
  - apply (proj1 copy_buffer_tracks_display).
    apply reach_step, reach_construct.
  - apply (proj2 (proj2 copy_buffer_tracks_display)). reflexivity.
Defined.

(** ** The service worker: the dynamic partition *)

Create HintDb promise.
#[local] Hint Unfold andThen orCatch resolve reject detached emit setCaches getCaches
  caches_open caches_keys caches_delete caches_match cache_keys cache_put cache_delete
  console_log ServiceWorker.console_error skipWaiting clients_claim : promise.

Ltac run_promise := repeat progress (simpl; autounfold with promise; simpl).

(** [limitCacheSize] deletes nothing: whatever the size of the cache, all it
    can change is to create the cache it was asked to open. *)
Lemma limitCacheSizeFuel_evicts_nothing fuel cacheName maxSize w :
  fst (limitCacheSizeFuel fuel cacheName maxSize w) = Fulfilled tt /\
  caches (snd (limitCacheSizeFuel fuel cacheName maxSize w))
  = caches (snd (caches_open cacheName w)).
Proof.
  destruct fuel; run_promise;
    destruct (hasKey cacheName (caches w)); run_promise;
    match goal with |- context [(maxSize <? ?n)%nat] => destruct (maxSize <? n)%nat end;
    simpl; split; reflexivity.
Qed.

(** When the cache is over its limit the ReferenceError is what gets
    logged. *)
Lemma limitCacheSize_over_limit cacheName maxSize w c :
  assoc cacheName (caches w) = Some c ->
  (maxSize < length c)%nat ->
  limitCacheSize cacheName maxSize w
  = (Fulfilled tt,
     mkWorker (caches w) (trace w ++ [ConsoleError "Error limiting cache size:"])).
Proof.
  intros Hc Hlen. unfold limitCacheSize.
  assert (K : hasKey cacheName (caches w) = true).
  { clear -Hc. induction (caches w) as [|[k v] l IH]; [discriminate|].
    simpl in *. destruct (k =? cacheName)%string; [reflexivity | auto]. }
  destruct (cacheSize cacheName w); run_promise; rewrite K; simpl; rewrite Hc;
    rewrite length_map;
    replace (maxSize <? length c)%nat with true by (symmetry; apply Nat.ltb_lt; exact Hlen);
    reflexivity.
Qed.

Lemma caches_open_runs cacheName w :
  caches_open cacheName w
  = (Fulfilled cacheName, mkWorker (opened cacheName (caches w)) (trace w)).
Proof.
  unfold opened. run_promise. destruct w as [cs tr]. simpl.
  destruct (hasKey cacheName cs); reflexivity.
Qed.

Lemma limitCacheSize_evicts_nothing cacheName maxSize w :
  caches (snd (limitCacheSize cacheName maxSize w)) = opened cacheName (caches w).
Proof.
  unfold limitCacheSize.
  rewrite (proj2 (limitCacheSizeFuel_evicts_nothing _ _ _ _)), caches_open_runs.
  reflexivity.
Qed.

Lemma hasKey_assoc {V} k (l : list (string * V)) :
  hasKey k l = match assoc k l with Some _ => true | None => false end.
Proof.
  induction l as [|[k' v] l IH]; [reflexivity|].
  simpl. destruct (k' =? k)%string; [reflexivity | exact IH].
Qed.

Lemma assoc_update {V} k (f : V -> V) (l : list (string * V)) :
  assoc k (update k f l) = option_map f (assoc k l).
Proof.
  induction l as [|[k' v] l IH]; [reflexivity|].
  simpl. destruct (k' =? k)%string eqn:E; simpl; rewrite E; [reflexivity | exact IH].
Qed.

Lemma hasKey_update {V} k (f : V -> V) (l : list (string * V)) :
  hasKey k (update k f l) = hasKey k l.
Proof. rewrite !hasKey_assoc, assoc_update. now destruct (assoc k l). Qed.

Lemma assoc_opened k cs :
  assoc k (opened k cs) = Some (match assoc k cs with Some c => c | None => [] end).
Proof.
  unfold opened. rewrite hasKey_assoc.
  destruct (assoc k cs) as [c|] eqn:E; [exact E|].
  induction cs as [|[k' v] cs IH]; simpl in *.
  - now rewrite String.eqb_refl.
  - destruct (k' =? k)%string; [discriminate | auto].
Qed.

Lemma opened_opened k cs : opened k (opened k cs) = opened k cs.
Proof.
  unfold opened at 1. rewrite hasKey_assoc, assoc_opened. reflexivity.
Qed.

(** *** Matching by URL *)



Lemma matchIn_app u (c c' : Cache) :
  matchIn u (c ++ c')%list
  = match matchIn u c with Some r => Some r | None => matchIn u c' end.
Proof.
  induction c as [|[k r] c IH]; [reflexivity|].
  simpl. destruct (sameURL u k); [reflexivity | exact IH].
Qed.

Lemma matchIn_removeMatching u k c :
  matchIn u (removeMatching k c) = if sameURL u k then None else matchIn u c.
Proof.
  induction c as [|[k' r] c IH]; [now destruct (sameURL u k)|].
  unfold removeMatching in *. simpl. unfold sameURL in *.
  destruct (String.eqb_spec (withoutFragment k') (withoutFragment k)) as [E1|N1]; simpl.
  - rewrite IH. rewrite E1.
    destruct (String.eqb_spec (withoutFragment k) (withoutFragment u)); reflexivity.
  - unfold sameURL. rewrite IH.
    destruct (String.eqb_spec (withoutFragment k') (withoutFragment u)) as [E2|N2];
      [|reflexivity].
    destruct (String.eqb_spec (withoutFragment k) (withoutFragment u)); [congruence|].
    reflexivity.
Qed.

Lemma matchIn_putEntry u k r c :
  matchIn u (putEntry k r c) = if sameURL u k then Some r else matchIn u c.
Proof.
  unfold putEntry. rewrite matchIn_app, matchIn_removeMatching. simpl.
  destruct (sameURL u k); [reflexivity | now destruct (matchIn u c)].
Qed.

(** A request that no entry matches replaces nothing. *)
Lemma removeMatching_miss u c : matchIn u c = None -> removeMatching u c = c.
Proof.
  induction c as [|[k r] c IH]; [reflexivity|].
  unfold removeMatching in *. simpl.
  destruct (sameURL u k); [discriminate|]. intros H. simpl. now rewrite IH.
Qed.

Lemma matchAll_miss u n cs c :
  matchAll u cs = None -> assoc n cs = Some c -> matchIn u c = None.
Proof.
  induction cs as [|[n' c'] cs IH]; [discriminate|].
  simpl. destruct (matchIn u c') eqn:E; [discriminate|]. intros Hrest.
  destruct (n' =? n)%string; [now intros [= <-] | now apply IH].
Qed.

Lemma putEntry_keys u r (c : Cache) k :
  In k (map fst (putEntry u r c)) -> k = u \/ In k (map fst c).
Proof.
  unfold putEntry, removeMatching. rewrite map_app. intros Hin.
  apply in_app_or in Hin as [Hin|[<-|[]]]; [right | now left].
  apply in_map_iff in Hin as (kv & <- & Hin). apply filter_In in Hin as [Hin _].
  now apply in_map.
Qed.

Lemma matchAll_app u (cs cs' : CacheStorage) :
  matchAll u (cs ++ cs')%list
  = match matchAll u cs with Some r => Some r | None => matchAll u cs' end.
Proof.
  induction cs as [|[k c] cs IH]; [reflexivity|].
  simpl. destruct (matchIn u c); [reflexivity | exact IH].
Qed.

Lemma matchAll_opened u n cs : matchAll u (opened n cs) = matchAll u cs.
Proof.
  unfold opened. destruct (hasKey n cs); [reflexivity|].
  rewrite matchAll_app. simpl. now destruct (matchAll u cs).
Qed.


Lemma matchAll_update_miss u n f cs :
  matchAll u cs = None ->
  matchAll u (update n f cs)
  = match assoc n cs with Some c => matchIn u (f c) | None => None end.
Proof.
  induction cs as [|[k c] cs IH]; [reflexivity|].
  simpl. destruct (matchIn u c) eqn:E; [discriminate|]. intros Hrest.
  destruct (k =? n)%string; simpl.
  - rewrite Hrest. now destruct (matchIn u (f c)).
  - rewrite E. apply IH, Hrest.
Qed.

Lemma matchAll_of_assoc u n cs c r :
  assoc n cs = Some c -> matchIn u c = Some r -> exists r', matchAll u cs = Some r'.
Proof.
  induction cs as [|[k c0] cs IH]; [discriminate|].
  simpl. intros Hn Hu. destruct (matchIn u c0) as [r0|] eqn:E; [eauto|].
  destruct (k =? n)%string; [injection Hn as ->; congruence | auto].
Qed.

(** *** What the fetch listener does to the cache storage *)

Lemma respond_hit origin network request w r :
  matchAll (url request) (caches w) = Some r ->
  respond origin network request w = (Fulfilled (Some r), w).
Proof. intros H. unfold respond. run_promise. now rewrite H. Qed.

(** A response that is not cached and comes from the network with status
    200 and type 'basic' is returned, and stored unless [put] refuses it. *)
Lemma respond_stores origin network request w r :
  matchAll (url request) (caches w) = None ->
  network (url request) = Some r ->
  status r = 200 ->
  type r = "basic" ->
  fst (respond origin network request w) = Fulfilled (Some r) /\
  caches (snd (respond origin network request w))
  = if storable r
    then update DYNAMIC_CACHE_NAME (putEntry (url request) r)
                (opened DYNAMIC_CACHE_NAME (caches w))
    else opened DYNAMIC_CACHE_NAME (caches w).
Proof.
  intros Hmiss Hnet Hstatus Htype.
  unfold respond, fetch, detached, caches_match, getCaches, resolve, reject,
    orCatch, andThen.
  cbn beta iota. rewrite Hmiss, Hnet. cbn beta iota. rewrite Hstatus, Htype.
  change (negb (200 =? 200) || negb ("basic" =? "basic")%string) with false.
  cbn beta iota. split; [reflexivity|].
  rewrite caches_open_runs. cbn beta iota. cbn [fst snd].
  unfold cache_put. destruct (storable r);
    unfold andThen, getCaches, setCaches, reject; cbn [fst snd caches trace];
    rewrite limitCacheSize_evicts_nothing; cbn [caches]; now rewrite opened_opened.
Qed.

(** The fetch listener leaves the cache storage alone, or opens the dynamic
    partition, or the request missed the cache and its response from the
    network is stored there. *)
Lemma respond_effect origin network request w :
  caches (snd (respond origin network request w)) = caches w \/
  caches (snd (respond origin network request w))
  = opened DYNAMIC_CACHE_NAME (caches w) \/
  exists r,
    matchAll (url request) (caches w) = None /\
    network (url request) = Some r /\ status r = 200 /\ type r = "basic" /\
    storable r = true /\
    caches (snd (respond origin network request w))
    = update DYNAMIC_CACHE_NAME (putEntry (url request) r)
             (opened DYNAMIC_CACHE_NAME (caches w)).
Proof.
  destruct (matchAll (url request) (caches w)) as [r|] eqn:M.
  { left. now rewrite (respond_hit origin network request w r M). }
  destruct (network (url request)) as [r|] eqn:N.
  2:{ left. unfold respond, fetch. run_promise. rewrite M, N. simpl.
      destruct (destination request =? "document")%string; reflexivity. }
  destruct (Z.eqb_spec (status r) 200) as [Hstatus|Hstatus].
  - destruct (String.eqb_spec (type r) "basic") as [Htype|Htype].
    + pose proof (proj2 (respond_stores origin network request w r M N Hstatus Htype))
        as E.
      destruct (storable r) eqn:P; [|now right; left].
      right; right. exists r. now repeat split.
    + left. unfold respond, fetch. run_promise. rewrite M, N. simpl.
      apply String.eqb_neq in Htype. rewrite Htype, orb_true_r. reflexivity.
  - left. unfold respond, fetch. run_promise. rewrite M, N. simpl.
    apply Z.eqb_neq in Hstatus. rewrite Hstatus. reflexivity.
Qed.

(** No request handled by the fetch listener removes a key from the dynamic
    partition: an entry is only put after a miss, so it replaces none. *)
Lemma serve_never_evicts origin network requests w k :
  In k (dynamicKeys w) -> In k (dynamicKeys (serve origin network requests w)).
Proof.
  revert w. induction requests as [|request requests IH]; intros w Hin; [exact Hin|].
  simpl. apply IH. unfold onFetch.
  destruct (negb (method request =? "GET")%string); [exact Hin|].
  destruct (negb (prefix origin (url request))); [exact Hin|].
  pose proof (respond_effect origin network request w) as H.
  destruct (respond origin network request w) as [res w']. cbn [snd] in H.
  unfold dynamicKeys in *.
  destruct H as [->|[->|(r & Hmiss & _ & _ & _ & _ & ->)]]; [exact Hin| |].
  - rewrite assoc_opened.
    destruct (assoc DYNAMIC_CACHE_NAME (caches w)); [exact Hin | destruct Hin].
  - rewrite assoc_update, assoc_opened. simpl.
    destruct (assoc DYNAMIC_CACHE_NAME (caches w)) as [c|] eqn:D; [|destruct Hin].
    unfold putEntry. rewrite (removeMatching_miss _ _ (matchAll_miss _ _ _ _ Hmiss D)).
    rewrite map_app. apply in_or_app. now left.
Qed.

(** C3 fails on the code.  The 52 requests are for distinct scripts of the
    origin, none cached, each answered by the network and handled in turn.
    The pass of [limitCacheSize] that the 52nd request starts lists 51
    keys, more than [MAX_DYNAMIC_CACHE_SIZE]; it ends in the ReferenceError,
    which is logged, and deletes nothing.  The dynamic partition ends up
    with 52 entries, the oldest still the first. *)
Theorem dynamic_cache_exceeds_bound :
  length (dynamicKeys (serve exampleOrigin online (scripts 52) emptyWorker)) = 52%nat /\
  (MAX_DYNAMIC_CACHE_SIZE < 52)%nat /\
  hd_error (dynamicKeys (serve exampleOrigin online (scripts 52) emptyWorker))
  = Some (exampleOrigin ++ "/lib/0.js") /\
  length (dynamicKeys (serve exampleOrigin online (scripts 51) emptyWorker)) = 51%nat /\
  trace (serve exampleOrigin online (scripts 51) emptyWorker) = [] /\
  trace (serve exampleOrigin online (scripts 52) emptyWorker)
  = [ConsoleError "Error limiting cache size:"].
Proof. vm_compute. repeat split. unfold lt. repeat constructor. Qed.

(** ** The service worker: install *)

Section Install.

Variable origin : string.
Variable network : string -> option Response.

Lemma fetchAll_fails urls u :
  In u urls -> network u = None -> fetchAll network urls = None.
Proof.
  intros Hin Hu. induction urls as [|v urls IH]; [destruct Hin|].
  simpl. destruct Hin as [->|Hin].
  - now rewrite Hu.
  - destruct (network v) as [r|]; [|reflexivity].
    destruct (ok r && storable r); [|reflexivity]. now rewrite IH.
Qed.

(** What 'install' does when [addAll] rejects. *)
Lemma install_addAll_rejects w :
  fetchAll network (map (absolute origin) STATIC_FILES) = None ->
  install origin network w
  = (Fulfilled tt,
     mkWorker (caches (snd (caches_open STATIC_CACHE_NAME w)))
              (trace w ++ [ ConsoleLog "Service Worker installing...";
                            ConsoleLog "Pre-caching static files";
                            ConsoleError "Error during service worker installation:" ])).
Proof.
  intros H. unfold install, cache_addAll. rewrite H. run_promise.
  destruct (hasKey STATIC_CACHE_NAME (caches w)); simpl;
    now rewrite <- !app_assoc.
Qed.

End Install.

(** C4 (amended).  During install, if the fetch of any asset of the static
    asset list fails, [addAll] rejects and no asset is stored (atomic
    precache): the cache storage is as [caches.open] of the static
    partition left it, and [skipWaiting] is not called.  The listener
    catches and logs the rejection, so the promise given to [waitUntil]
    fulfils and the worker is installed. *)
Theorem install_logs_precache_failure origin network w asset :
  In asset STATIC_FILES ->
  network (absolute origin asset) = None ->
  fst (install origin network w) = Fulfilled tt /\
  afterInstall (fst (install origin network w)) = installed /\
  caches (snd (install origin network w)) = caches (snd (caches_open STATIC_CACHE_NAME w)) /\
  trace (snd (install origin network w))
  = (trace w ++ [ ConsoleLog "Service Worker installing...";
                  ConsoleLog "Pre-caching static files";
                  ConsoleError "Error during service worker installation:" ])%list.
Proof.
  intros Hin Hfail.
  rewrite install_addAll_rejects; [repeat split|].
  apply (fetchAll_fails network _ (absolute origin asset)); [|exact Hfail].
  apply in_map, Hin.
Qed.

Lemma install_logs_precache_failure_witness :
  fst (install exampleOrigin offline emptyWorker) = Fulfilled tt /\
  afterInstall (fst (install exampleOrigin offline emptyWorker)) = installed /\
  caches (snd (install exampleOrigin offline emptyWorker))
  = caches (snd (caches_open STATIC_CACHE_NAME emptyWorker)) /\
  trace (snd (install exampleOrigin offline emptyWorker))
  = (trace emptyWorker ++ [ ConsoleLog "Service Worker installing...";
                            ConsoleLog "Pre-caching static files";
                            ConsoleError "Error during service worker installation:" ])%list.
Proof.
  apply (install_logs_precache_failure exampleOrigin offline emptyWorker "/index.html").
  - right; left; reflexivity.
  - reflexivity.
Defined.

(** C4 as stated fails: with every asset fetch failing, the promise of the
    install listener is fulfilled, not rejected, and the worker is
    installed with an empty static partition. *)
Lemma install_fulfils_when_precache_fails :
  In "/index.html" STATIC_FILES /\
  offline (absolute exampleOrigin "/index.html") = None /\
  fst (install exampleOrigin offline emptyWorker) = Fulfilled tt /\
  afterInstall (fst (install exampleOrigin offline emptyWorker)) <> redundant /\
  caches (snd (install exampleOrigin offline emptyWorker)) = [(STATIC_CACHE_NAME, [])].
Proof.
  split; [simpl; tauto|]. split; [reflexivity|]. split; [reflexivity|].
  split; [discriminate | reflexivity].
Qed.

(** ** The service worker: fetch *)

Section Fetch.

Variable origin : string.
Variable network : string -> option Response.

(** The answer to an intercepted request that is not cached and whose
    network fetch fails. *)
Lemma respond_network_failure request w :
  matchAll (url request) (caches w) = None ->
  network (url request) = None ->
  respond origin network request w
  = (if (destination request =? "document")%string
     then (Fulfilled (matchAll (absolute origin "/index.html") (caches w)), w)
     else (Fulfilled (Some offlineResponse), w)).
Proof.
  intros Hmiss Hfail. unfold respond, fetch. run_promise.
  rewrite Hmiss, Hfail. simpl.
  destruct (destination request =? "document")%string; reflexivity.
Qed.

End Fetch.




(** ** The service worker: activate *)

Lemma list_of_append (s t : string) :
  list_ascii_of_string (s ++ t)
  = (list_ascii_of_string s ++ list_ascii_of_string t)%list.
Proof. induction s as [|c s IH]; simpl; [reflexivity | now rewrite IH]. Qed.

(** Two strings with a common suffix are equal when what precedes it is. *)
Lemma append_inv_tail (a b s : string) : a ++ s = b ++ s -> a = b.
Proof.
  intros H. apply (f_equal list_ascii_of_string) in H.
  rewrite !list_of_append in H. apply app_inv_tail in H.
  rewrite <- (string_of_list_ascii_of_string a), <- (string_of_list_ascii_of_string b).
  now rewrite H.
Qed.

(** What ends in "-static" does not end in "-dynamic". *)
Lemma static_is_not_dynamic (a b : string) : a ++ "-static" <> b ++ "-dynamic".
Proof.
  intros H. apply (f_equal (fun x => rev (list_ascii_of_string x))) in H.
  rewrite !list_of_append, !rev_app_distr in H. simpl in H. discriminate.
Qed.

(** A partition name of another version is not a current partition name. *)
Lemma old_version_names version :
  version <> CACHE_NAME ->
  staticName version <> STATIC_CACHE_NAME /\
  staticName version <> DYNAMIC_CACHE_NAME /\
  dynamicName version <> STATIC_CACHE_NAME /\
  dynamicName version <> DYNAMIC_CACHE_NAME.
Proof.
  intros Hv. unfold staticName, dynamicName, STATIC_CACHE_NAME, DYNAMIC_CACHE_NAME.
  repeat split; intros H.
  - apply append_inv_tail in H. contradiction.
  - exact (static_is_not_dynamic _ _ H).
  - symmetry in H. exact (static_is_not_dynamic _ _ H).
  - apply append_inv_tail in H. contradiction.
Qed.

Lemma filter_filter {A} (p q : A -> bool) l :
  filter p (filter q l) = filter (fun x => q x && p x) l.
Proof.
  induction l as [|x l IH]; simpl; [reflexivity|].
  destruct (q x); simpl; [destruct (p x)|]; now rewrite IH.
Qed.

Lemma purge_filter names cs :
  purge names cs
  = filter (fun kv => negb (isOld (fst kv) && existsb (String.eqb (fst kv)) names)) cs.
Proof.
  revert cs. induction names as [|n names IH]; intros cs; simpl.
  - induction cs as [|kv cs IHcs]; simpl; [reflexivity|].
    rewrite andb_false_r. simpl. now rewrite <- IHcs.
  - rewrite IH. destruct (isOld n) eqn:On.
    + unfold remove. rewrite filter_filter. apply filter_ext. intros [k v]. simpl.
      destruct (String.eqb_spec k n) as [->|N]; simpl.
      * rewrite On. reflexivity.
      * reflexivity.
    + apply filter_ext. intros [k v]. simpl.
      destruct (String.eqb_spec k n) as [->|N]; simpl; [|reflexivity].
      rewrite On. reflexivity.
Qed.

(** Purging all names present leaves the current partitions. *)
Lemma purge_all cs :
  purge (map fst cs) cs = filter (fun kv => negb (isOld (fst kv))) cs.
Proof.
  rewrite purge_filter. apply filter_ext_in. intros [k v] Hin. simpl.
  replace (existsb (String.eqb k) (map fst cs)) with true; [now rewrite andb_true_r|].
  symmetry. apply existsb_exists. exists k. split; [|apply String.eqb_refl].
  change k with (fst (k, v)). apply in_map, Hin.
Qed.

Lemma deleteIfOld_runs n w :
  deleteIfOld n w
  = if isOld n
    then (Fulfilled (Some (hasKey n (caches w))),
          mkWorker (remove n (caches w))
                   (trace w ++ [ConsoleLog ("Deleting old cache: " ++ n); CachesDelete n]))
    else (Fulfilled None, w).
Proof.
  unfold deleteIfOld. fold (isOld n). destruct (isOld n); [|reflexivity].
  run_promise. now rewrite <- app_assoc.
Qed.

(** The deletions of 'activate', run from any worker state. *)
Lemma activate_deletions names w :
  exists results,
    Promise_all (map deleteIfOld names) w
    = (Fulfilled results,
       mkWorker (purge names (caches w)) (trace w ++ purgeEffects names)).
Proof.
  revert w. induction names as [|n names IH]; intros w.
  - exists []. destruct w. simpl. unfold resolve. now rewrite app_nil_r.
  - cbn [map Promise_all purge purgeEffects fold_left].
    unfold andThen at 1. rewrite deleteIfOld_runs.
    destruct (isOld n).
    + destruct (IH (mkWorker (remove n (caches w))
                      (trace w ++ [ConsoleLog ("Deleting old cache: " ++ n); CachesDelete n])))
        as [results E].
      exists (Some (hasKey n (caches w)) :: results).
      unfold andThen at 1. rewrite E. unfold resolve. cbn [caches trace].
      now rewrite <- app_assoc.
    + destruct (IH w) as [results E].
      exists (None :: results). unfold andThen at 1. rewrite E. reflexivity.
Qed.

Lemma activate_runs w :
  activate w
  = (Fulfilled tt,
     mkWorker (filter (fun kv => negb (isOld (fst kv))) (caches w))
              (trace w ++ ConsoleLog "Service Worker activating..."
                 :: purgeEffects (cacheNames w) ++ [ClientsClaim])).
Proof.
  unfold activate.
  destruct (activate_deletions (map fst (caches w))
              (mkWorker (caches w) (trace w ++ [ConsoleLog "Service Worker activating..."])))
    as [results E].
  unfold console_log, emit, caches_keys, getCaches, clients_claim, orCatch, resolve.
  unfold andThen at 1 2 3. cbn [caches trace].
  unfold andThen at 1. cbn [caches trace] in E. rewrite E. cbn [caches trace].
  rewrite purge_all. unfold cacheNames, emit. cbn [caches trace].
  now rewrite <- !app_assoc.
Qed.

Lemma purgeEffects_deletes names name :
  In name names -> isOld name = true -> In (CachesDelete name) (purgeEffects names).
Proof.
  intros Hin Hold. induction names as [|n names IH]; [destruct Hin|].
  simpl. destruct Hin as [->|Hin].
  - rewrite Hold. right. now left.
  - destruct (isOld n); [right; right|]; auto.
Qed.

Lemma purgeEffects_no_claim names : ~ In ClientsClaim (purgeEffects names).
Proof.
  induction names as [|n names IH]; [intros []|].
  simpl. destruct (isOld n); [|exact IH].
  intros [H|[H|H]]; [discriminate | discriminate | exact (IH H)].
Qed.

(** C7.  The activate phase deletes every cache partition whose name is
    neither the current static nor the current dynamic partition name and
    keeps the current ones as they are; afterwards no partition named
    after another version string remains.  [clients.claim()] is called
    once, after the last deletion, and the promise given to [waitUntil]
    fulfils. *)
Theorem activate_purges_old_partitions w :
  fst (activate w) = Fulfilled tt /\
  caches (snd (activate w))
  = filter (fun kv => (fst kv =? STATIC_CACHE_NAME)%string
                      || (fst kv =? DYNAMIC_CACHE_NAME)%string) (caches w) /\
  (forall name,
      In name (cacheNames (snd (activate w))) ->
      name = STATIC_CACHE_NAME \/ name = DYNAMIC_CACHE_NAME) /\
  (forall version,
      version <> CACHE_NAME ->
      ~ In (staticName version) (cacheNames (snd (activate w))) /\
      ~ In (dynamicName version) (cacheNames (snd (activate w)))) /\
  (exists purged,
      trace (snd (activate w))
      = (trace w ++ ConsoleLog "Service Worker activating..." :: purged ++ [ClientsClaim])%list /\
      ~ In ClientsClaim purged /\
      forall name,
        In name (cacheNames w) ->
        name <> STATIC_CACHE_NAME -> name <> DYNAMIC_CACHE_NAME ->
        In (CachesDelete name) purged).
Proof.
  rewrite activate_runs. simpl.
  assert (F : filter (fun kv => negb (isOld (fst kv))) (caches w)
              = filter (fun kv => (fst kv =? STATIC_CACHE_NAME)%string
                                  || (fst kv =? DYNAMIC_CACHE_NAME)%string) (caches w)).
  { apply filter_ext. intros kv. unfold isOld.
    now rewrite negb_andb, !negb_involutive. }
  assert (K : forall name,
             In name (cacheNames (mkWorker (filter (fun kv => negb (isOld (fst kv))) (caches w))
                                           (trace w))) ->
             name = STATIC_CACHE_NAME \/ name = DYNAMIC_CACHE_NAME).
  { intros name Hin. unfold cacheNames in Hin. simpl in Hin.
    apply in_map_iff in Hin as ([k v] & <- & Hin). apply filter_In in Hin as [_ Hk].
    simpl in *. unfold isOld in Hk. rewrite negb_andb, !negb_involutive in Hk.
    apply orb_true_iff in Hk as [Hk|Hk]; apply String.eqb_eq in Hk; auto. }
  split; [reflexivity|]. split; [exact F|]. split; [exact K|]. split.
  - intros version Hv. destruct (old_version_names version Hv) as (A & B & C & D).
    split; intros Hin; apply K in Hin; destruct Hin; contradiction.
  - exists (purgeEffects (cacheNames w)). split; [reflexivity|].
    split; [apply purgeEffects_no_claim|].
    intros name Hin H1 H2. apply purgeEffects_deletes; [exact Hin|].
    unfold isOld. apply String.eqb_neq in H1, H2. now rewrite H1, H2.
Qed.

Lemma activate_purges_old_partitions_witness :
  cacheNames (snd (activate upgraded)) = [STATIC_CACHE_NAME] /\
  ~ In (staticName "number-converter-v0.9.0") (cacheNames (snd (activate upgraded))) /\
  ~ In (dynamicName "number-converter-v0.9.0") (cacheNames (snd (activate upgraded))).
Proof.
  split; [reflexivity|].
  apply (proj1 (proj2 (proj2 (proj2 (activate_purges_old_partitions upgraded))))
           "number-converter-v0.9.0").
  discriminate.
Defined.

(** * Beyond the claims: the rest of the converter *)

Import NumberSystemUtils App.

(** ** Keypress validation *)

Lemma keypressPattern_systems sourceType R pattern :
  In (sourceType, R) systems ->
  keypressPattern sourceType = Some pattern ->
  forall c, pattern c = isRadixDigit R c.
Proof.
  simpl. intros [H|[H|[H|[H|[]]]]]; inversion H; subst; clear H;
    intros [= <-] c.
  - apply isBinaryDigit_radix.
  - apply isOctalDigit_radix.
  - apply isDecimalDigit_radix.
  - apply isHexDigit_radix.
Qed.

Lemma validateInput_lets_through which pattern :
  32 < which ->
  defaultPrevented (validateInput which pattern) = false ->
  exists c, fromCharCode which = Some c /\ pattern c = true.
Proof.
  intros Hk. unfold validateInput.
  replace (which <=? 32) with false by (symmetry; lia).
  destruct (fromCharCode which) as [c|]; simpl; [|discriminate].
  destruct (pattern c) eqn:E; simpl; [|discriminate].
  intros _. exists c. split; [reflexivity | exact E].
Qed.

Lemma typed_allowed_keys pattern keys :
  (forall k, In k keys ->
             32 < k /\ defaultPrevented (validateInput k pattern) = false) ->
  exists s, typed keys = Some s /\ allIn pattern s = true /\
            String.length s = length keys.
Proof.
  induction keys as [|k keys IH]; intros H.
  - exists "". repeat split.
  - destruct (H k (or_introl eq_refl)) as [Hk Hp].
    destruct (validateInput_lets_through k pattern Hk Hp) as (c & Ec & Hc).
    destruct IH as (s & Es & Hs & Hl); [intros k' Hin; apply H; now right|].
    exists (String c s). simpl. now rewrite Ec, Es, Hc, Hs, Hl.
Qed.

Lemma handleInput_digits sourceType R s this :
  In (sourceType, R) systems ->
  testPlus (isRadixDigit R) s = true ->
  handleInput sourceType s this =
  updateResults (roundMagnitude (mathInt R s 0)) sourceType this.
Proof.
  intros Hsys H.
  pose proof (trim_digits R s (testPlus_allIn _ _ H)) as Htrim.
  assert (Hup : testPlus (isRadixDigit R) (toUpperCase (trim s)) = true).
  { rewrite Htrim. destruct s; [discriminate|].
    change (allIn (isRadixDigit R) (toUpperCase (String a s)) = true).
    rewrite allIn_isRadixDigit_toUpperCase. exact H. }
  rewrite (handleInput_accepts sourceType R _ _ Hsys Hup).
  now rewrite Htrim, mathInt_toUpperCase.
Qed.

(** X1.  Text typed with keys that the keypress filter of a field lets
    through, none of them a control key (codes up to 32), is always
    converted by [handleInput] of that field: the four result fields show
    the renderings of the double nearest to the value typed, none marked
    as error, the copy buffer holds them, and nothing is logged. *)
Theorem typed_keys_are_converted sourceType R pattern keys this :
  In (sourceType, R) systems ->
  keypressPattern sourceType = Some pattern ->
  keys <> [] ->
  (forall k, In k keys ->
             32 < k /\ defaultPrevented (validateInput k pattern) = false) ->
  exists s,
    typed keys = Some s /\
    results (handleInput sourceType s this)
    = shown (conversionsOf (roundMagnitude (mathInt R s 0))) /\
    currentValues (handleInput sourceType s this)
    = Some (conversionsOf (roundMagnitude (mathInt R s 0))) /\
    results (handleInput sourceType s this) <> errorMarkers /\
    console (handleInput sourceType s this) = console this.
Proof.
  intros Hsys Hpat Hne Hkeys.
  destruct (typed_allowed_keys pattern keys Hkeys) as (s & Es & Hs & Hl).
  exists s. split; [exact Es|].
  rewrite (handleInput_digits sourceType R s this Hsys).
  - split; [reflexivity|]. split; [reflexivity|]. split; [|reflexivity].
    intros E. apply (f_equal (fun fs => errorClass (binary fs))) in E. discriminate E.
  - rewrite <- (testPlus_ext _ _ s (keypressPattern_systems _ _ _ Hsys Hpat)).
    destruct s; [destruct keys; [congruence | discriminate] | exact Hs].
Qed.

Lemma typed_keys_are_converted_witness :
  exists s,
    typed [49; 48; 49] = Some s /\
    results (handleInput "binary" s fresh)
    = shown (conversionsOf (roundMagnitude (mathInt 2 s 0))) /\
    currentValues (handleInput "binary" s fresh)
    = Some (conversionsOf (roundMagnitude (mathInt 2 s 0))) /\
    results (handleInput "binary" s fresh) <> errorMarkers /\
    console (handleInput "binary" s fresh) = console fresh.
Proof.
  apply (typed_keys_are_converted "binary" 2 isBinaryDigit [49; 48; 49] fresh).
  - left; reflexivity.
  - reflexivity.
  - discriminate.
  - intros k [<-|[<-|[<-|[]]]]; split; reflexivity.
Defined.

Lemma allWhiteSpace_app s t :
  allWhiteSpace (s ++ t) = allWhiteSpace s && allWhiteSpace t.
Proof. induction s as [|c s IH]; simpl; [reflexivity | now rewrite IH, andb_assoc]. Qed.

Lemma trimEnd_step c s :
  trimEnd (String c s) = if allWhiteSpace (String c s) then "" else String c (trimEnd s).
Proof. reflexivity. Qed.

(** Text that ends in a character that is not white space keeps its end. *)
Lemma trimEnd_app_keep x b :
  allWhiteSpace b = false -> trimEnd b = b -> trimEnd (x ++ b) = x ++ b.
Proof.
  intros Hb Tb. induction x as [|c x IH]; [exact Tb|].
  change (String c x ++ b) with (String c (x ++ b)).
  rewrite trimEnd_step. simpl. rewrite allWhiteSpace_app, Hb, andb_false_r, andb_false_r.
  now rewrite IH.
Qed.

Lemma digits_not_whitespace R s :
  testPlus (isRadixDigit R) s = true ->
  allWhiteSpace s = false /\ trimEnd s = s /\ trimStart s = s.
Proof.
  intros H. pose proof (trim_digits R s (testPlus_allIn _ _ H)) as T.
  destruct s as [|c s]; [discriminate|]. simpl in H.
  apply andb_true_iff in H as [Hc Hs].
  pose proof (isRadixDigit_not_whitespace _ _ Hc) as W.
  assert (S : trimStart (String c s) = String c s) by (simpl; now rewrite W).
  unfold trim in T. rewrite S in T.
  split; [simpl; now rewrite W | split; [exact T | exact S]].
Qed.

(** X2.  The keypress filter lets the space key (code 32) through in every
    field, since codes up to 32 are not checked; yet a space between two
    digit strings makes [handleInput] show the error marker in all four
    result fields. *)
Theorem space_is_typed_but_not_converted :
  (forall pattern, defaultPrevented (validateInput 32 pattern) = false) /\
  typed [32] = Some " " /\
  (forall sourceType R a b this,
      In (sourceType, R) systems ->
      testPlus (isRadixDigit R) a = true ->
      testPlus (isRadixDigit R) b = true ->
      results (handleInput sourceType (a ++ " " ++ b) this) = errorMarkers /\
      currentValues (handleInput sourceType (a ++ " " ++ b) this) = None).
Proof.
  split; [reflexivity|]. split; [reflexivity|].
  intros sourceType R a b this Hsys Ha Hb.
  destruct (digits_not_whitespace R a Ha) as (_ & _ & Sa).
  destruct (digits_not_whitespace R b Hb) as (Wb & Tb & _).
  assert (T : trim (a ++ " " ++ b) = a ++ " " ++ b).
  { unfold trim.
    assert (S : trimStart (a ++ " " ++ b) = a ++ " " ++ b).
    { destruct a as [|c a]; [discriminate|]. simpl in Sa |- *.
      destruct (isWhiteSpace c); [|reflexivity].
      exfalso. clear -Sa. assert (L : (String.length (trimStart a) <= String.length a)%nat).
      { clear. induction a as [|c a IH]; simpl; [lia|].
        destruct (isWhiteSpace c); simpl; lia. }
      rewrite Sa in L. simpl in L. lia. }
    rewrite S, <- append_assoc. apply trimEnd_app_keep; assumption. }
  assert (Hne : toUpperCase (trim (a ++ " " ++ b)) <> "").
  { rewrite T. intros E. apply toUpperCase_empty in E.
    destruct a; [discriminate | discriminate]. }
  destruct (handleInput_rejects sourceType R (a ++ " " ++ b) this Hsys Hne) as [msg ->].
  - rewrite (testPlus_not_empty _ _ Hne), T.
    rewrite allIn_isRadixDigit_toUpperCase, allIn_app. simpl.
    now rewrite andb_false_r.
  - split; reflexivity.
Qed.

Lemma space_is_typed_but_not_converted_witness :
  results (handleInput "decimal" ("12" ++ " " ++ "34") fresh) = errorMarkers /\
  currentValues (handleInput "decimal" ("12" ++ " " ++ "34") fresh) = None.
Proof.
  apply (proj2 (proj2 space_is_typed_but_not_converted) "decimal" 10 "12" "34" fresh).
  - do 2 right; left; reflexivity.
  - reflexivity.
  - reflexivity.
Defined.

(** ** The safe range *)

(** From 2^53 on, rounding to a double gives at least 2^53. *)
Lemma roundMagnitude_large m :
  2 ^ 53 <= m ->
  roundMagnitude m = Infinity \/ exists v, roundMagnitude m = Finite v /\ 2 ^ 53 <= v.
Proof.
  intros Hm. unfold roundMagnitude.
  replace (m <? 2 ^ 53) with false by (symmetry; lia).
  match goal with |- context [if ?b then Infinity else Finite ?v] =>
    destruct b; [now left | right; exists v; split; [reflexivity|]] end.
  assert (L : 53 <= Z.log2 m) by (apply Z.log2_le_pow2; lia).
  pose proof (Z.log2_spec m ltac:(lia)) as [Lo _].
  set (e := Z.log2 m - 52) in *.
  assert (Q : 2 ^ 52 <= Z.shiftr m e).
  { rewrite Z.shiftr_div_pow2 by lia. apply Z.div_le_lower_bound.
    - apply Z.pow_pos_nonneg; lia.
    - rewrite <- Z.pow_add_r by lia. replace (e + 52) with (Z.log2 m) by lia. exact Lo. }
  rewrite Z.shiftl_mul_pow2 by lia.
  assert (P : 2 <= 2 ^ e) by (change 2 with (2 ^ 1) at 1; apply Z.pow_le_mono_r; lia).
  destruct (_ || _); nia.
Qed.

(** X3.  For a non-empty string of digits of a radix from 2 to 16,
    [isWithinSafeRange] of what [parseInt] returns holds exactly when the
    value written is at most 9007199254740991, although it only sees the
    rounded double; and then [parseInt] has returned that value exactly. *)
Theorem isWithinSafeRange_detects_rounding R s :
  2 <= R <= 16 ->
  testPlus (isRadixDigit R) s = true ->
  (isWithinSafeRange (parseInt s R) = true <-> mathInt R s 0 <= 9007199254740991) /\
  (isWithinSafeRange (parseInt s R) = true -> parseInt s R = Finite (mathInt R s 0)).
Proof.
  intros HR H. rewrite parseInt_digits by assumption.
  assert (Hn : 0 <= mathInt R s 0) by (apply mathInt_nonneg; lia).
  destruct (Z_le_gt_dec (mathInt R s 0) 9007199254740991) as [Le|Gt].
  - rewrite roundMagnitude_exact by lia.
    split; [|reflexivity]. unfold isWithinSafeRange, getMaxSafeInteger, lessEq.
    split; [intros _; exact Le | intros _; apply Z.leb_le; exact Le].
  - destruct (roundMagnitude_large (mathInt R s 0) ltac:(lia)) as [->|(v & -> & Hv)].
    + split; [split; [discriminate | lia] | discriminate].
    + assert (F : isWithinSafeRange (Finite v) = false).
      { unfold isWithinSafeRange, getMaxSafeInteger, lessEq. apply Z.leb_gt. lia. }
      rewrite F. split; [split; [discriminate | lia] | discriminate].
Qed.

Lemma isWithinSafeRange_detects_rounding_witness :
  (isWithinSafeRange (parseInt "9007199254740993" 10) = true
   <-> mathInt 10 "9007199254740993" 0 <= 9007199254740991) /\
  (isWithinSafeRange (parseInt "9007199254740993" 10) = true ->
   parseInt "9007199254740993" 10 = Finite (mathInt 10 "9007199254740993" 0)).
Proof.
  apply (isWithinSafeRange_detects_rounding 10 "9007199254740993").
  - lia.
  - reflexivity.
Defined.

(** ** Copying *)

Lemma handleInput_exact sourceType R value this :
  In (sourceType, R) systems ->
  testPlus (alphabet R) value = true ->
  mathInt R value 0 <= 2 ^ 53 ->
  handleInput sourceType value this
  = updateResults (Finite (mathInt R value 0)) sourceType this /\
  conversionsOf (Finite (mathInt R value 0))
  = mkConversions (radixDigits 2 (mathInt R value 0)) (radixDigits 8 (mathInt R value 0))
                  (radixDigits 10 (mathInt R value 0))
                  (toUpperCase (radixDigits 16 (mathInt R value 0))) /\
  0 <= mathInt R value 0.
Proof.
  intros Hsys Hval Hmax.
  destruct (systems_radix _ _ Hsys) as [HR Hbounds].
  destruct (alphabet_clean R value HR Hval) as [Hclean Hdigits].
  assert (Hn : 0 <= mathInt R value 0) by (apply mathInt_nonneg; lia).
  rewrite (handleInput_digits sourceType R) by assumption.
  rewrite roundMagnitude_exact by exact Hmax.
  split; [reflexivity | split; [apply conversionsOf_exact; lia | exact Hn]].
Qed.

(** X4.  Copying right after a field over its alphabet, of value at most
    2^53, has been converted puts four lines on the clipboard, "Binary: ",
    "Octal: ", "Decimal: " and "Hexadecimal: ", each followed by the
    numeral of the value in that radix, joined by line feeds, and reports
    that the results were copied. *)
Theorem copy_after_conversion sourceType R value this :
  In (sourceType, R) systems ->
  testPlus (alphabet R) value = true ->
  mathInt R value 0 <= 2 ^ 53 ->
  exists b o d h,
    numeral 2 b (mathInt R value 0) /\ numeral 8 o (mathInt R value 0) /\
    numeral 10 d (mathInt R value 0) /\ numeral 16 h (mathInt R value 0) /\
    fst (copyResults true (handleInput sourceType value this)) = Fulfilled tt /\
    clipboard (snd (copyResults true (handleInput sourceType value this)))
    = Some ("Binary: " ++ b ++ String "010" "Octal: " ++ o ++
            String "010" "Decimal: " ++ d ++ String "010" "Hexadecimal: " ++ h) /\
    notification (snd (copyResults true (handleInput sourceType value this)))
    = Some "Results copied to clipboard!".
Proof.
  intros Hsys Hval Hmax.
  destruct (handleInput_exact sourceType R value this Hsys Hval Hmax) as (-> & E & Hn).
  exists (toUpperCase (radixDigits 2 (mathInt R value 0))),
         (toUpperCase (radixDigits 8 (mathInt R value 0))),
         (toUpperCase (radixDigits 10 (mathInt R value 0))),
         (toUpperCase (radixDigits 16 (mathInt R value 0))).
  repeat (split; [apply numeral_radixDigits; lia|]).
  unfold copyResults.
  destruct (updateResults_shown (Finite (mathInt R value 0)) sourceType this)
    as (_ & -> & _).
  rewrite E, (radixDigits_decimal_upper 2), (radixDigits_decimal_upper 8),
    (radixDigits_decimal_upper 10) by lia.
  split; [reflexivity|]. split; [|reflexivity].
  unfold clipboard_write, showCopyMessage, resultText. simpl. reflexivity.
Qed.

Lemma copy_after_conversion_witness :
  exists b o d h,
    numeral 2 b (mathInt 10 "493" 0) /\ numeral 8 o (mathInt 10 "493" 0) /\
    numeral 10 d (mathInt 10 "493" 0) /\ numeral 16 h (mathInt 10 "493" 0) /\
    fst (copyResults true (handleInput "decimal" "493" fresh)) = Fulfilled tt /\
    clipboard (snd (copyResults true (handleInput "decimal" "493" fresh)))
    = Some ("Binary: " ++ b ++ String "010" "Octal: " ++ o ++
            String "010" "Decimal: " ++ d ++ String "010" "Hexadecimal: " ++ h) /\
    notification (snd (copyResults true (handleInput "decimal" "493" fresh)))
    = Some "Results copied to clipboard!".
Proof.
  apply (copy_after_conversion "decimal" 10 "493" fresh).
  - do 2 right; left; reflexivity.
  - reflexivity.
  - vm_compute. discriminate.
Defined.

Lemma handleInput_keeps sourceType value this :
  inputs (handleInput sourceType value this) = inputs this /\
  clipboard (handleInput sourceType value this) = clipboard this /\
  notification (handleInput sourceType value this) = notification this.
Proof.
  destruct (handleInput_cases sourceType value this) as [->|[[msg ->]|(x & _ & _ & ->)]];
    repeat split.
Qed.

(** X5.  In every state the converter can reach, what it has written to
    the clipboard, if anything, is the four-line text of a conversion that
    [handleInput] let through, never placeholders or error markers; and
    the copy notification, if any, says "No results to copy" or "Results
    copied to clipboard!": [copyResults] never gets to report the failure
    of the fallback. *)
Theorem clipboard_holds_only_conversions this :
  Reachable this ->
  (clipboard this = None \/
   exists x, isNaN x = false /\ ltZero x = false /\
             clipboard this = Some (resultText (conversionsOf x))) /\
  (notification this = None \/
   notification this = Some "No results to copy" \/
   notification this = Some "Results copied to clipboard!").
Proof.
  induction 1 as [pageInputs pageResults | this a HR IH].
  - split; left; reflexivity.
  - pose proof (Reachable_consistent this HR) as C.
    destruct a as [sourceType value| |clipboardWrites]; simpl.
    + destruct (handleInput_keeps sourceType value this) as (_ & -> & ->). exact IH.
    + exact IH.
    + unfold copyResults, consistent in *.
      destruct (currentValues this) as [v|].
      * destruct C as (_ & x & N & L & ->).
        destruct clipboardWrites; simpl; [|exact IH].
        split; [right; exists x; auto | right; right; reflexivity].
      * simpl. split; [apply IH | right; left; reflexivity].
Qed.

Lemma clipboard_holds_only_conversions_witness :
  (clipboard (step (step fresh (TypeIn "octal" "17")) (Copy true)) = None \/
   exists x, isNaN x = false /\ ltZero x = false /\
             clipboard (step (step fresh (TypeIn "octal" "17")) (Copy true))
             = Some (resultText (conversionsOf x))) /\
  (notification (step (step fresh (TypeIn "octal" "17")) (Copy true)) = None \/
   notification (step (step fresh (TypeIn "octal" "17")) (Copy true))
   = Some "No results to copy" \/
   notification (step (step fresh (TypeIn "octal" "17")) (Copy true))
   = Some "Results copied to clipboard!").
Proof.
  apply (clipboard_holds_only_conversions
           (step (step fresh (TypeIn "octal" "17")) (Copy true))).
  apply reach_step, reach_step, reach_construct.
Defined.

(** X6.  What [handleInput] shows and stores depends on the source type and
    the text alone, not on the state it starts from; and it changes
    neither the input fields (the other three are not filled in), nor the
    clipboard, nor the copy notification. *)
Theorem handleInput_depends_on_input_only sourceType value this other :
  results (handleInput sourceType value this)
  = results (handleInput sourceType value other) /\
  currentValues (handleInput sourceType value this)
  = currentValues (handleInput sourceType value other) /\
  inputs (handleInput sourceType value this) = inputs this /\
  clipboard (handleInput sourceType value this) = clipboard this /\
  notification (handleInput sourceType value this) = notification this.
Proof.
  split; [|split; [|apply handleInput_keeps]];
    unfold handleInput;
    destruct (toUpperCase (trim value)); try reflexivity;
    destruct (checkedDecimalValue sourceType (String a s)); reflexivity.
Qed.

(** ** getSystemInfo *)

(** X7.  [getSystemInfo] and [handleInput] agree on the number systems: a
    tag has an entry exactly when it is one of the four tags, the base of
    the entry is the radix in which [handleInput] parses valid input of
    that tag, and for every tag without an entry input of ASCII characters
    that is not empty once trimmed ends in the error "Unknown number
    system".  A tag without an entry does not always give null: for the
    property names of [Object.prototype] the inherited member is
    returned. *)
Theorem getSystemInfo_agrees_with_handleInput :
  (forall system info,
      getSystemInfo system = Own info -> In (system, base info) systems) /\
  (forall system R, In (system, R) systems ->
                    exists info, getSystemInfo system = Own info /\ base info = R) /\
  (forall system info value,
      getSystemInfo system = Own info ->
      testPlus (isRadixDigit (base info)) value = true ->
      toDecimalValue system value = Normal (parseInt value (base info))) /\
  (forall system value this,
      (forall info, getSystemInfo system <> Own info) ->
      isASCII value = true ->
      toUpperCase (trim value) <> "" ->
      results (handleInput system value this) = errorMarkers /\
      console (handleInput system value this)
      = (console this ++ ["Conversion error: Unknown number system"])%list) /\
  (forall key, In key objectPrototype -> getSystemInfo key = Inherited key).
Proof.
  assert (A : forall system info, getSystemInfo system = Own info ->
                                  In (system, base info) systems).
  { intros system info. unfold getSystemInfo.
    destruct (String.eqb_spec system "binary") as [->|_]; [intros [= <-]; simpl; auto|].
    destruct (String.eqb_spec system "octal") as [->|_]; [intros [= <-]; simpl; auto|].
    destruct (String.eqb_spec system "decimal") as [->|_]; [intros [= <-]; simpl; auto|].
    destruct (String.eqb_spec system "hexadecimal") as [->|_];
      [intros [= <-]; simpl; auto 6|].
    destruct (existsb _ _); discriminate. }
  split; [|split; [|split; [|split]]].
  - exact A.
  - intros system R. simpl.
    intros [H|[H|[H|[H|[]]]]]; inversion H; subst; eexists; split; reflexivity.
  - intros system info value H Hv.
    exact (proj1 (toDecimalValue_systems _ _ value (A _ _ H)) Hv).
  - intros system value this Hno _ Hne. unfold handleInput, checkedDecimalValue.
    destruct (toUpperCase (trim value)) as [|c v]; [congruence|].
    assert (U : toDecimalValue system (String c v) = Throw (Error "Unknown number system")).
    { unfold toDecimalValue.
      destruct (String.eqb_spec system "binary") as [->|_];
        [exfalso; eapply Hno; reflexivity|].
      destruct (String.eqb_spec system "octal") as [->|_];
        [exfalso; eapply Hno; reflexivity|].
      destruct (String.eqb_spec system "decimal") as [->|_];
        [exfalso; eapply Hno; reflexivity|].
      destruct (String.eqb_spec system "hexadecimal") as [->|_];
        [exfalso; eapply Hno; reflexivity|].
      reflexivity. }
    rewrite U. split; reflexivity.
  - intros key Hin. simpl in Hin.
    repeat (destruct Hin as [<-|Hin]; [reflexivity|]). destruct Hin.
Qed.

Lemma getSystemInfo_agrees_with_handleInput_witness :
  (exists info, getSystemInfo "octal" = Own info /\ base info = 8) /\
  (results (handleInput "Binary" "101" fresh) = errorMarkers /\
   console (handleInput "Binary" "101" fresh)
   = (console fresh ++ ["Conversion error: Unknown number system"])%list) /\
  getSystemInfo "toString" = Inherited "toString".
Proof.
  split; [|split].
  - apply (proj1 (proj2 getSystemInfo_agrees_with_handleInput) "octal" 8).
    right; left; reflexivity.
  - apply (proj1 (proj2 (proj2 (proj2 getSystemInfo_agrees_with_handleInput)))
             "Binary" "101" fresh).
    + intros info. discriminate.
    + reflexivity.
    + discriminate.
  - apply (proj2 (proj2 (proj2 (proj2 getSystemInfo_agrees_with_handleInput))) "toString").
    do 5 right; left; reflexivity.
Defined.

(** ** White space and leading zeros *)

Lemma trimStart_all_whitespace s : allWhiteSpace s = true -> trimStart s = "".
Proof.
  induction s as [|c s IH]; [reflexivity|]. simpl.
  intros H. apply andb_true_iff in H as [-> Hs]. auto.
Qed.

Lemma trimEnd_all_whitespace s : allWhiteSpace s = true -> trimEnd s = "".
Proof. destruct s as [|c s]; [reflexivity|]. intros H. now rewrite trimEnd_step, H. Qed.

Lemma trimStart_app s t :
  trimStart (s ++ t) = if allWhiteSpace s then trimStart t else trimStart s ++ t.
Proof.
  induction s as [|c s IH]; [reflexivity|]. simpl.
  destruct (isWhiteSpace c); [exact IH | reflexivity].
Qed.

Lemma trimEnd_app_whitespace s t :
  allWhiteSpace t = true -> trimEnd (s ++ t) = trimEnd s.
Proof.
  intros Ht. induction s as [|c s IH]; [now apply trimEnd_all_whitespace|].
  change (String c s ++ t) with (String c (s ++ t)).
  rewrite !trimEnd_step. simpl. rewrite allWhiteSpace_app, Ht, andb_true_r. now rewrite IH.
Qed.

(** X8.  White space before and after the text makes no difference to
    [handleInput], whatever the text. *)
Theorem handleInput_ignores_surrounding_whitespace sourceType before value after this :
  allWhiteSpace before = true ->
  allWhiteSpace after = true ->
  handleInput sourceType (before ++ value ++ after) this
  = handleInput sourceType value this.
Proof.
  intros Hb Ha.
  assert (T : trim (before ++ value ++ after) = trim value).
  { unfold trim. rewrite trimStart_app, Hb, trimStart_app.
    destruct (allWhiteSpace value) eqn:V.
    - now rewrite (trimStart_all_whitespace after), (trimStart_all_whitespace value).
    - now apply trimEnd_app_whitespace. }
  unfold handleInput. now rewrite T.
Qed.

Lemma handleInput_ignores_surrounding_whitespace_witness :
  handleInput "hexadecimal" ("  " ++ "ff" ++ " ") fresh
  = handleInput "hexadecimal" "ff" fresh.
Proof.
  apply (handleInput_ignores_surrounding_whitespace "hexadecimal" "  " "ff" " " fresh);
    reflexivity.
Defined.

(** X9.  A zero put before valid input, of whatever size, changes nothing
    of what [handleInput] shows and stores. *)
Theorem handleInput_ignores_leading_zero sourceType R value this :
  In (sourceType, R) systems ->
  testPlus (isRadixDigit R) value = true ->
  handleInput sourceType (String "0" value) this = handleInput sourceType value this.
Proof.
  intros Hsys H. destruct (systems_radix _ _ Hsys) as [_ HR].
  rewrite !(handleInput_digits sourceType R) by
    (trivial; simpl; rewrite (testPlus_allIn _ _ H), andb_true_r;
     unfold isRadixDigit; simpl; apply Z.ltb_lt; lia).
  simpl. reflexivity.
Qed.

Lemma handleInput_ignores_leading_zero_witness :
  handleInput "binary" (String "0" "1010") fresh = handleInput "binary" "1010" fresh.
Proof.
  apply (handleInput_ignores_leading_zero "binary" 2 "1010" fresh).
  - left; reflexivity.
  - reflexivity.
Defined.

(** ** Keyboard shortcuts *)

(** X10.  A keydown leads the converter only to states that the page's own
    actions reach, so what holds of those states holds under keyboard use;
    Ctrl/Cmd+C pressed inside an input field is left to the browser and
    changes nothing; without a converter nothing happens. *)
Theorem onKeydown_stays_reachable :
  (forall clipboardWrites e this,
      Reachable this ->
      exists this',
        snd (onKeydown clipboardWrites e (Some this)) = Some this' /\ Reachable this') /\
  (forall clipboardWrites e this,
      key e = "c" -> targetIsInput e = true ->
      onKeydown clipboardWrites e (Some this) = (false, Some this)) /\
  (forall clipboardWrites e, snd (onKeydown clipboardWrites e None) = None).
Proof.
  split; [|split].
  - intros b e this HR. unfold onKeydown.
    destruct ((ctrlKey e || metaKey e) && (key e =? "k")%string);
      destruct ((ctrlKey e || metaKey e) && (key e =? "c")%string && negb (targetIsInput e));
      destruct (key e =? "Escape")%string; cbn [option_map snd]; eexists;
      (split; [reflexivity|]);
      repeat first [ exact HR
                   | apply (reach_step _ Clear)
                   | apply (reach_step _ (Copy b)) ].
  - intros b e this Hk Hi. unfold onKeydown. rewrite Hk, Hi. simpl.
    now rewrite !andb_false_r.
  - intros b e. unfold onKeydown.
    destruct ((ctrlKey e || metaKey e) && (key e =? "k")%string);
      destruct ((ctrlKey e || metaKey e) && (key e =? "c")%string && negb (targetIsInput e));
      destruct (key e =? "Escape")%string; reflexivity.
Qed.

Lemma onKeydown_stays_reachable_witness :
  (exists this',
      snd (onKeydown true (mkKeyboardEvent true false "k" false) (Some fresh)) = Some this' /\
      Reachable this') /\
  onKeydown true (mkKeyboardEvent true false "c" true) (Some fresh) = (false, Some fresh).
Proof.
  split.
  - apply (proj1 onKeydown_stays_reachable true (mkKeyboardEvent true false "k" false) fresh).
    apply reach_construct.
  - apply (proj1 (proj2 onKeydown_stays_reachable) true
             (mkKeyboardEvent true false "c" true) fresh); reflexivity.
Defined.

(** ** toSignedBinary *)

Lemma length_app (s t : string) :
  String.length (s ++ t) = (String.length s + String.length t)%nat.
Proof. induction s as [|c s IH]; simpl; [reflexivity | now rewrite IH]. Qed.

(** The value of a digit string read after [a]. *)
Lemma mathInt_acc R s : forall a,
  allIn (isRadixDigit R) s = true ->
  mathInt R s a = a * R ^ Z.of_nat (String.length s) + mathInt R s 0.
Proof.
  induction s as [|c s IH]; intros a H.
  - simpl. lia.
  - simpl in H. apply andb_true_iff in H as [Hc Hs].
    destruct (isRadixDigit_value _ _ Hc) as (d & E & Hd).
    cbn [mathInt String.length]. rewrite E.
    rewrite (IH (a * R + d)), (IH (0 * R + d)) by exact Hs.
    rewrite Nat2Z.inj_succ, Z.pow_succ_r by lia. ring.
Qed.

Lemma mathInt_cons R c s d :
  digitValue c = Some d ->
  allIn (isRadixDigit R) s = true ->
  mathInt R (String c s) 0 = d * R ^ Z.of_nat (String.length s) + mathInt R s 0.
Proof.
  intros E Hs. cbn [mathInt]. rewrite E, (mathInt_acc R s (0 * R + d)) by exact Hs. ring.
Qed.

Lemma binary_bound s :
  allIn (isRadixDigit 2) s = true ->
  0 <= mathInt 2 s 0 < 2 ^ Z.of_nat (String.length s).
Proof.
  induction s as [|c s IH]; intros H; [simpl; lia|].
  simpl in H. apply andb_true_iff in H as [Hc Hs].
  destruct (isRadixDigit_value _ _ Hc) as (d & E & Hd).
  rewrite (mathInt_cons 2 c s d E Hs).
  cbn [String.length]. rewrite Nat2Z.inj_succ, Z.pow_succ_r by lia.
  specialize (IH Hs). nia.
Qed.

Lemma binary_char c d :
  isRadixDigit 2 c = true -> digitValue c = Some d -> c = digitChar d.
Proof.
  intros Hc E.
  assert (G : (if isRadixDigit 2 c
               then match digitValue c with
                    | Some d => (digitChar d =? c)%char
                    | None => false
                    end
               else true) = true) by by_ascii_cases c.
  rewrite Hc, E in G. symmetry. now apply Ascii.eqb_eq.
Qed.

(** Binary strings of one length and one value are one string. *)
Lemma binary_inj s : forall t,
  allIn (isRadixDigit 2) s = true -> allIn (isRadixDigit 2) t = true ->
  String.length s = String.length t ->
  mathInt 2 s 0 = mathInt 2 t 0 -> s = t.
Proof.
  induction s as [|c s IH]; intros [|c' t] Hs Ht Hl Hv; try discriminate; [reflexivity|].
  simpl in Hs, Ht. apply andb_true_iff in Hs as [Hc Hs]. apply andb_true_iff in Ht as [Hc' Ht].
  destruct (isRadixDigit_value _ _ Hc) as (d & E & Hd).
  destruct (isRadixDigit_value _ _ Hc') as (d' & E' & Hd').
  rewrite (mathInt_cons 2 c s d E Hs), (mathInt_cons 2 c' t d' E' Ht) in Hv.
  injection Hl as Hl. rewrite Hl in Hv.
  pose proof (binary_bound s Hs) as Bs. pose proof (binary_bound t Ht) as Bt.
  rewrite Hl in Bs.
  assert (d = d') by nia. subst d'.
  rewrite (binary_char c d Hc E), (binary_char c' d Hc' E'). f_equal.
  apply IH; trivial. lia.
Qed.

Lemma zeros_facts n :
  String.length (zeros n) = n /\ allIn (isRadixDigit 2) (zeros n) = true /\
  mathInt 2 (zeros n) 0 = 0.
Proof.
  induction n as [|n (L & A & V)]; [repeat split|].
  simpl. rewrite L. split; [reflexivity | split; [exact A | exact V]].
Qed.

Lemma padStart_facts bits s :
  allIn (isRadixDigit 2) s = true ->
  String.length (padStart bits s) = Nat.max bits (String.length s) /\
  allIn (isRadixDigit 2) (padStart bits s) = true /\
  mathInt 2 (padStart bits s) 0 = mathInt 2 s 0.
Proof.
  intros Hs. unfold padStart.
  destruct (zeros_facts (bits - String.length s)) as (L & A & V).
  rewrite length_app, L, allIn_app, A, Hs.
  split; [lia | split; [reflexivity|]].
  clear L. induction (bits - String.length s)%nat as [|n IH]; [reflexivity|].
  simpl in A |- *. apply IH. exact A. simpl in V. exact V.
Qed.

Lemma invert_char c :
  (if isRadixDigit 2 c
   then match digitValue c,
              digitValue (if (c =? "0")%char then "1"%char else "0"%char) with
        | Some d, Some d' => (d' =? 1 - d) && (0 <=? d') && (d' <? 2)
        | _, _ => false
        end
   else true) = true.
Proof. by_ascii_cases c. Qed.

Lemma invert_facts s :
  allIn (isRadixDigit 2) s = true ->
  String.length (invert s) = String.length s /\
  allIn (isRadixDigit 2) (invert s) = true /\
  mathInt 2 (invert s) 0 = 2 ^ Z.of_nat (String.length s) - 1 - mathInt 2 s 0.
Proof.
  induction s as [|c s IH]; intros H; [repeat split|].
  simpl in H. apply andb_true_iff in H as [Hc Hs].
  destruct (IH Hs) as (L & A & V).
  pose proof (invert_char c) as G. rewrite Hc in G.
  destruct (digitValue c) as [d|] eqn:E; [|discriminate].
  destruct (digitValue (if (c =? "0")%char then "1"%char else "0"%char)) as [d'|] eqn:E';
    [|discriminate].
  apply andb_true_iff in G as [G G2]. apply andb_true_iff in G as [G0 G1].
  assert (Hi : isRadixDigit 2 (if (c =? "0")%char then "1"%char else "0"%char) = true)
    by (unfold isRadixDigit; rewrite E'; exact G2).
  cbn [invert allIn String.length]. rewrite Hi, A, L.
  split; [reflexivity | split; [reflexivity|]].
  rewrite (mathInt_cons 2 _ (invert s) d' E' A), (mathInt_cons 2 c s d E Hs), V, L.
  rewrite Nat2Z.inj_succ, Z.pow_succ_r by lia. nia.
Qed.

Lemma bit_char c :
  (if isRadixDigit 2 c
   then match digitValue c with Some d => bit c =? d | None => false end
   else true) = true.
Proof. by_ascii_cases c. Qed.

(** The adding loop adds one, up to the carry out of the first character. *)
Lemma addOne_facts s :
  allIn (isRadixDigit 2) s = true ->
  String.length (fst (addOne s)) = String.length s /\
  allIn (isRadixDigit 2) (fst (addOne s)) = true /\
  0 <= snd (addOne s) <= 1 /\
  mathInt 2 (fst (addOne s)) 0 + snd (addOne s) * 2 ^ Z.of_nat (String.length s)
  = mathInt 2 s 0 + 1.
Proof.
  induction s as [|c s IH]; intros H; [simpl; repeat split; lia|].
  simpl in H. apply andb_true_iff in H as [Hc Hs].
  destruct (IH Hs) as (L & A & C & V).
  pose proof (bit_char c) as G. rewrite Hc in G.
  destruct (digitValue c) as [d|] eqn:E; [|discriminate].
  apply Z.eqb_eq in G.
  destruct (isRadixDigit_value _ _ Hc) as (d0 & E0 & Hd). rewrite E in E0.
  injection E0 as <-.
  cbn [addOne]. destruct (addOne s) as [result carry]. cbn [fst snd] in *.
  set (sum := bit c + carry).
  assert (Hm : 0 <= sum mod 2 < 2) by (apply Z.mod_pos_bound; lia).
  assert (Hdiv : sum = 2 * (sum / 2) + sum mod 2) by (apply Z.div_mod; lia).
  assert (Hsum : 0 <= sum <= 2) by (unfold sum; lia).
  assert (Hchar : digitValue (digitChar (sum mod 2)) = Some (sum mod 2))
    by (apply digitValue_digitChar; lia).
  assert (Hi : isRadixDigit 2 (digitChar (sum mod 2)) = true)
    by (unfold isRadixDigit; rewrite Hchar; apply Z.ltb_lt; lia).
  cbn [allIn String.length]. rewrite Hi, A, L.
  split; [reflexivity | split; [reflexivity | split; [lia|]]].
  rewrite (mathInt_cons 2 _ result _ Hchar A), (mathInt_cons 2 c s d E Hs), L.
  rewrite Nat2Z.inj_succ, Z.pow_succ_r by lia.
  assert (P : 0 < 2 ^ Z.of_nat (String.length s)) by (apply Z.pow_pos_nonneg; lia).
  unfold sum in *. nia.
Qed.

Lemma radixDigits_binary z :
  0 <= z ->
  allIn (isRadixDigit 2) (radixDigits 2 z) = true /\
  mathInt 2 (radixDigits 2 z) 0 = z /\
  (z < 2 ^ Z.of_nat (String.length (radixDigits 2 z))) /\
  (0 < z -> 2 ^ Z.of_nat (String.length (radixDigits 2 z) - 1) <= z).
Proof.
  intros Hz.
  destruct (radixDigits_shape 2 ltac:(lia) ltac:(lia) (isRadixDigit 2) z)
    as (c & D & EQ & Hall & Hzero); trivial.
  { intros d Hd. unfold isRadixDigit. rewrite digitValue_digitChar by lia.
    apply Z.ltb_lt. lia. }
  pose proof (mathInt_radixDigits 2 ltac:(lia) ltac:(lia) z Hz) as V.
  rewrite EQ in *. split; [exact Hall|]. split; [exact V|].
  pose proof (binary_bound _ Hall) as B. rewrite V in B. split; [lia|].
  intros Hpos. simpl in Hall. apply andb_true_iff in Hall as [Hc HD].
  destruct (isRadixDigit_value _ _ Hc) as (d & E & Hd).
  rewrite (mathInt_cons 2 c D d E HD) in V.
  assert (d <> 0).
  { intros ->. apply (digitValue_zero c 0) in E. simpl in E.
    destruct (Hzero E). lia. }
  cbn [String.length].
  replace (S (String.length D) - 1)%nat with (String.length D) by lia.
  pose proof (binary_bound D HD).
  assert (d = 1) by lia. subst d. lia.
Qed.

Lemma radixDigits_fits z bits :
  0 <= z < 2 ^ Z.of_nat bits ->
  (String.length (radixDigits 2 z) <= Nat.max bits 1)%nat.
Proof.
  intros Hz. destruct (radixDigits_binary z ltac:(lia)) as (_ & _ & _ & Lo).
  destruct (Z.eq_dec z 0) as [->|N];
    [change (String.length (radixDigits 2 0)) with 1%nat; lia|].
  specialize (Lo ltac:(lia)).
  assert (Z.of_nat (String.length (radixDigits 2 z) - 1) < Z.of_nat bits).
  { apply (Z.pow_lt_mono_r_iff 2); lia. }
  lia.
Qed.

Lemma binary_digits_class s :
  allIn isBinaryDigit s = allIn (isRadixDigit 2) s.
Proof. apply allIn_ext, isBinaryDigit_radix. Qed.

Lemma toSignedBinary_negative_facts decimal bits :
  decimal < 0 ->
  String.length (toSignedBinary decimal bits)
  = Nat.max bits (String.length (radixDigits 2 (- decimal))) /\
  allIn (isRadixDigit 2) (toSignedBinary decimal bits) = true /\
  mathInt 2 (toSignedBinary decimal bits) 0
  = 2 ^ Z.of_nat (Nat.max bits (String.length (radixDigits 2 (- decimal)))) + decimal.
Proof.
  intros Hd. unfold toSignedBinary.
  replace (0 <=? decimal) with false by (symmetry; lia).
  replace (Z.abs decimal) with (- decimal) by lia.
  destruct (radixDigits_binary (- decimal) ltac:(lia)) as (A & V & _).
  destruct (padStart_facts bits _ A) as (Lp & Ap & Vp).
  destruct (invert_facts _ Ap) as (Li & Ai & Vi).
  destruct (addOne_facts _ Ai) as (La & Aa & C & Va).
  rewrite La, Li, Lp. split; [reflexivity | split; [exact Aa|]].
  rewrite Vi, Vp, V, Li, Lp in Va.
  pose proof (binary_bound _ Aa) as B. rewrite La, Li, Lp in B.
  set (P := 2 ^ Z.of_nat (Nat.max bits (String.length (radixDigits 2 (- decimal))))) in *.
  assert (snd (addOne (invert (padStart bits (radixDigits 2 (- decimal))))) = 0) by nia.
  lia.
Qed.

(** X11.  For a negative integer whose magnitude is below 2^bits,
    [toSignedBinary] returns exactly [bits] characters "0" and "1" whose
    value as a binary numeral is 2^bits + decimal: the two's complement.
    For a larger magnitude nothing is cut off: the result is as long as
    the binary digits of the magnitude, and its value is 2^length +
    decimal. *)
Theorem toSignedBinary_is_twos_complement decimal bits :
  decimal < 0 ->
  (- decimal < 2 ^ Z.of_nat bits ->
   String.length (toSignedBinary decimal bits) = bits /\
   allIn isBinaryDigit (toSignedBinary decimal bits) = true /\
   mathInt 2 (toSignedBinary decimal bits) 0 = 2 ^ Z.of_nat bits + decimal) /\
  (2 ^ Z.of_nat bits <= - decimal ->
   String.length (toSignedBinary decimal bits)
   = String.length (radixDigits 2 (- decimal)) /\
   (bits < String.length (toSignedBinary decimal bits))%nat /\
   mathInt 2 (toSignedBinary decimal bits) 0
   = 2 ^ Z.of_nat (String.length (toSignedBinary decimal bits)) + decimal).
Proof.
  intros Hd. destruct (toSignedBinary_negative_facts decimal bits Hd) as (L & A & V).
  destruct (radixDigits_binary (- decimal) ltac:(lia)) as (_ & _ & Hi & Lo).
  split; intros Hr.
  - pose proof (radixDigits_fits (- decimal) bits ltac:(lia)) as F.
    assert (bits <> 0%nat) by (intros ->; simpl in Hr; lia).
    assert (M : Nat.max bits (String.length (radixDigits 2 (- decimal))) = bits) by lia.
    rewrite M in *. rewrite binary_digits_class. auto.
  - assert (bits < String.length (radixDigits 2 (- decimal)))%nat.
    { apply Nat2Z.inj_lt. apply (Z.pow_lt_mono_r_iff 2); lia. }
    assert (M : Nat.max bits (String.length (radixDigits 2 (- decimal)))
                = String.length (radixDigits 2 (- decimal))) by lia.
    rewrite M in *. rewrite L. auto.
Qed.

Lemma toSignedBinary_is_twos_complement_witness :
  String.length (toSignedBinary (-5) 8) = 8%nat /\
  allIn isBinaryDigit (toSignedBinary (-5) 8) = true /\
  mathInt 2 (toSignedBinary (-5) 8) 0 = 2 ^ Z.of_nat 8 + -5.
Proof.
  apply (proj1 (toSignedBinary_is_twos_complement (-5) 8 ltac:(lia))).
  vm_compute. reflexivity.
Defined.

(** X12.  For a non-negative integer [toSignedBinary] returns its binary
    digits padded with zeros to [bits] characters, and longer when the
    digits are more.  There is no range check: a negative number of
    magnitude k below 2^bits gets the very string of the positive number
    2^bits - k. *)
Theorem toSignedBinary_has_no_range_check :
  (forall decimal bits,
      0 <= decimal ->
      String.length (toSignedBinary decimal bits)
      = Nat.max bits (String.length (radixDigits 2 decimal)) /\
      allIn isBinaryDigit (toSignedBinary decimal bits) = true /\
      mathInt 2 (toSignedBinary decimal bits) 0 = decimal) /\
  (forall k bits,
      0 < k < 2 ^ Z.of_nat bits ->
      toSignedBinary (- k) bits = toSignedBinary (2 ^ Z.of_nat bits - k) bits).
Proof.
  assert (N : forall decimal bits,
             0 <= decimal ->
             String.length (toSignedBinary decimal bits)
             = Nat.max bits (String.length (radixDigits 2 decimal)) /\
             allIn (isRadixDigit 2) (toSignedBinary decimal bits) = true /\
             mathInt 2 (toSignedBinary decimal bits) 0 = decimal).
  { intros decimal bits Hd. unfold toSignedBinary.
    replace (0 <=? decimal) with true by (symmetry; lia).
    destruct (radixDigits_binary decimal Hd) as (A & V & _).
    destruct (padStart_facts bits _ A) as (Lp & Ap & Vp).
    rewrite Vp, V. auto. }
  split.
  - intros decimal bits Hd. rewrite binary_digits_class. apply N, Hd.
  - intros k bits Hk.
    destruct (toSignedBinary_negative_facts (- k) bits ltac:(lia)) as (L1 & A1 & V1).
    destruct (N (2 ^ Z.of_nat bits - k) bits ltac:(lia)) as (L2 & A2 & V2).
    assert (bits <> 0%nat) by (intros ->; simpl in Hk; lia).
    pose proof (radixDigits_fits (- - k) bits ltac:(lia)) as F1.
    pose proof (radixDigits_fits (2 ^ Z.of_nat bits - k) bits ltac:(lia)) as F2.
    apply binary_inj; trivial; [lia|].
    rewrite V1, V2.
    replace (Nat.max bits (String.length (radixDigits 2 (- - k)))) with bits by lia.
    lia.
Qed.

Lemma toSignedBinary_has_no_range_check_witness :
  (String.length (toSignedBinary 5 8)
   = Nat.max 8 (String.length (radixDigits 2 5)) /\
   allIn isBinaryDigit (toSignedBinary 5 8) = true /\
   mathInt 2 (toSignedBinary 5 8) 0 = 5) /\
  toSignedBinary (- 128) 8 = toSignedBinary (2 ^ Z.of_nat 8 - 128) 8.
Proof.
  split.
  - apply (proj1 toSignedBinary_has_no_range_check 5 8%nat). lia.
  - apply (proj2 toSignedBinary_has_no_range_check 128 8%nat). vm_compute. split; reflexivity.
Defined.

(** ** formatWithSeparators *)

Lemma separate_keeps_text s : forall prevWord,
  withoutCommas (separate prevWord s) = withoutCommas s.
Proof.
  induction s as [|c s IH]; intros p; [reflexivity|].
  cbn [separate]. destruct (p && groupsAhead (String c s)); cbn [withoutCommas];
    change ("," =? ",")%char with true; cbn iota;
    destruct (c =? ",")%char; now rewrite IH.
Qed.

(** X13.  [formatWithSeparators] only inserts commas: without its commas
    the result is the text given without its commas, whatever the text. *)
Theorem formatWithSeparators_only_inserts_commas numberStr :
  withoutCommas (formatWithSeparators numberStr) = withoutCommas numberStr.
Proof. apply separate_keeps_text. Qed.

Lemma digitRun_digits s : allIn isDigit s = true -> digitRun s = String.length s.
Proof.
  induction s as [|c s IH]; [reflexivity|]. simpl.
  intros H. apply andb_true_iff in H as [-> Hs]. now rewrite IH.
Qed.

Lemma isDigit_word c : isDigit c = true -> isWordChar c = true.
Proof. unfold isDigit, isWordChar. now intros ->. Qed.

Lemma separate_short s prevWord :
  allIn isDigit s = true -> (String.length s < 3)%nat -> separate prevWord s = s.
Proof.
  intros H L. destruct s as [|c1 [|c2 [|c3 s]]]; simpl in L; try lia; [reflexivity| |];
    simpl in H; repeat (apply andb_true_iff in H as [?Hc H]);
    cbn [separate]; unfold groupsAhead; cbn [digitRun];
    repeat match goal with Hc : isDigit _ = true |- _ => rewrite Hc; clear Hc end;
    simpl; now rewrite ?andb_false_r.
Qed.

Lemma separate_group b :
  allIn isDigit b = true -> String.length b = 3%nat ->
  separate true b = String "," b /\ separate false b = b.
Proof.
  intros H L. destruct b as [|c1 [|c2 [|c3 [|c4 s]]]]; try discriminate.
  simpl in H. repeat (apply andb_true_iff in H as [?Hc H]).
  pose proof (isDigit_word _ Hc) as W1.
  cbn [separate]. unfold groupsAhead. cbn [digitRun]. rewrite Hc, Hc0, Hc1.
  simpl. now rewrite ?andb_false_r.
Qed.

Lemma mod3_add3 n : ((n + 3) mod 3 = n mod 3)%nat.
Proof. replace (n + 3)%nat with (n + 1 * 3)%nat by lia. apply Nat.Div0.mod_add. Qed.

Lemma separate_app a : forall prevWord b,
  a <> "" -> allIn isDigit a = true ->
  allIn isDigit b = true -> String.length b = 3%nat ->
  separate prevWord (a ++ b) = separate prevWord a ++ String "," b.
Proof.
  induction a as [|c a IH]; intros p b Hne Ha Hb Lb; [congruence|].
  simpl in Ha. apply andb_true_iff in Ha as [Hc Ha].
  assert (G : groupsAhead (String c a ++ b) = groupsAhead (String c a)).
  { unfold groupsAhead.
    rewrite !digitRun_digits by (simpl; rewrite ?allIn_app, Hc, Ha, ?Hb; reflexivity).
    rewrite length_app, Lb, mod3_add3. cbn [String.length]. reflexivity. }
  change (String c a ++ b) with (String c (a ++ b)) in *.
  cbn [separate]. rewrite G, (isDigit_word c Hc).
  destruct a as [|c2 a].
  - simpl append. rewrite (proj1 (separate_group b Hb Lb)).
    destruct (p && groupsAhead (String c "")); reflexivity.
  - rewrite (IH true b) by (trivial; discriminate).
    destruct (p && groupsAhead (String c (String c2 a))); reflexivity.
Qed.

(** X14.  On a string of digits [formatWithSeparators] groups thousands:
    up to three digits are left as they are, and a string that ends in
    three more digits is the formatted front, a comma, and those three
    digits. *)
Theorem formatWithSeparators_groups_thousands :
  (forall s, allIn isDigit s = true -> (String.length s <= 3)%nat ->
             formatWithSeparators s = s) /\
  (forall front last3,
      front <> "" -> allIn isDigit front = true ->
      allIn isDigit last3 = true -> String.length last3 = 3%nat ->
      formatWithSeparators (front ++ last3)
      = formatWithSeparators front ++ String "," last3).
Proof.
  split.
  - intros s H L. unfold formatWithSeparators.
    destruct (Nat.eq_dec (String.length s) 3) as [E|N].
    + apply (separate_group s H E).
    + apply separate_short; [exact H | lia].
  - intros front last3 Hne Hf Hl L. now apply separate_app.
Qed.

Lemma formatWithSeparators_groups_thousands_witness :
  formatWithSeparators "999" = "999" /\
  formatWithSeparators ("1234" ++ "567") = formatWithSeparators "1234" ++ String "," "567".
Proof.
  split.
  - apply (proj1 formatWithSeparators_groups_thousands "999"); [reflexivity | simpl; lia].
  - apply (proj2 formatWithSeparators_groups_thousands "1234" "567");
      [discriminate | reflexivity | reflexivity | reflexivity].
Defined.

(** * Beyond the claims: the rest of the service worker *)

Lemma prefix_app s t : prefix s (s ++ t) = true.
Proof.
  induction s as [|c s IH]; [now destruct t|].
  simpl. destruct (ascii_dec c c); [exact IH | congruence].
Qed.

(** ** clearAllCaches and the message listener *)

Lemma caches_delete_runs n w :
  caches_delete n w
  = (Fulfilled (hasKey n (caches w)),
     mkWorker (remove n (caches w)) (trace w ++ [CachesDelete n])).
Proof. reflexivity. Qed.

Lemma delete_all names : forall w,
  exists results,
    Promise_all (map caches_delete names) w
    = (Fulfilled results,
       mkWorker (fold_left (fun cs n => remove n cs) names (caches w))
                (trace w ++ map CachesDelete names)).
Proof.
  induction names as [|n names IH]; intros w.
  - exists []. destruct w. simpl. unfold resolve. now rewrite app_nil_r.
  - cbn [map Promise_all fold_left]. unfold andThen at 1. rewrite caches_delete_runs.
    destruct (IH (mkWorker (remove n (caches w)) (trace w ++ [CachesDelete n])))
      as [results E].
    exists (hasKey n (caches w) :: results).
    unfold andThen at 1. rewrite E. unfold resolve. cbn [caches trace].
    now rewrite <- app_assoc.
Qed.

Lemma remove_all names : forall (cs : CacheStorage),
  fold_left (fun cs n => remove n cs) names cs
  = filter (fun kv => negb (existsb (String.eqb (fst kv)) names)) cs.
Proof.
  induction names as [|n names IH]; intros cs; simpl.
  - induction cs as [|kv cs IHcs]; simpl; [reflexivity | now rewrite <- IHcs].
  - rewrite IH. unfold remove. rewrite filter_filter. apply filter_ext.
    intros [k v]. simpl. now rewrite negb_orb.
Qed.

Lemma remove_every_name (cs : CacheStorage) :
  fold_left (fun cs n => remove n cs) (map fst cs) cs = [].
Proof.
  rewrite remove_all.
  assert (H : forall l : CacheStorage,
             (forall kv, In kv l -> In (fst kv) (map fst cs)) ->
             filter (fun kv => negb (existsb (String.eqb (fst kv)) (map fst cs))) l = []).
  { induction l as [|kv l IHl]; intros Hin; [reflexivity|]. simpl.
    replace (existsb (String.eqb (fst kv)) (map fst cs)) with true.
    - simpl. apply IHl. intros kv' H'. apply Hin. now right.
    - symmetry. apply existsb_exists. exists (fst kv).
      split; [apply Hin; now left | apply String.eqb_refl]. }
  apply H. intros kv Hin. now apply in_map.
Qed.

Lemma Promise_all_length {A} (ps : list (Promise A)) : forall w results w',
  Promise_all ps w = (Fulfilled results, w') -> length results = length ps.
Proof.
  induction ps as [|p ps IH]; intros w results w'.
  - simpl. unfold resolve. now intros [= <- _].
  - cbn [Promise_all]. unfold andThen at 1. destruct (p w) as [[a|e] w1]; [|discriminate].
    unfold andThen at 1.
    destruct (Promise_all ps w1) as [[more|e] w2] eqn:E; unfold resolve; [|discriminate].
    intros [= <- _]. simpl. f_equal. exact (IH _ _ _ E).
Qed.

Lemma clearAllCaches_runs w :
  exists results,
    clearAllCaches w
    = (Fulfilled results, mkWorker [] (trace w ++ map CachesDelete (cacheNames w))) /\
    length results = length (caches w).
Proof.
  unfold clearAllCaches, caches_keys, getCaches, resolve.
  unfold andThen at 1 2. cbn beta iota.
  destruct (delete_all (map fst (caches w)) w) as [results E].
  exists results. rewrite E, remove_every_name. split; [reflexivity|].
  rewrite (Promise_all_length _ _ _ _ E). now rewrite !length_map.
Qed.

(** X15.  [clearAllCaches] deletes every cache partition, the current ones
    included: afterwards the cache storage is empty, whatever it held, and
    the promise holds one result for each partition there was. *)
Theorem clearAllCaches_empties_storage w :
  exists results,
    fst (clearAllCaches w) = Fulfilled results /\
    length results = length (cacheNames w) /\
    caches (snd (clearAllCaches w)) = [] /\
    trace (snd (clearAllCaches w)) = (trace w ++ map CachesDelete (cacheNames w))%list.
Proof.
  destruct (clearAllCaches_runs w) as (results & E & L).
  exists results. rewrite E. cbn [fst snd caches trace].
  split; [reflexivity|]. split; [|split; reflexivity].
  unfold cacheNames. now rewrite length_map.
Qed.

Lemma clear_cache_runs p w :
  caches (snd (onMessage (mkMessageEvent (Some "CLEAR_CACHE") p) w)) = [] /\
  (p = true ->
   fst (onMessage (mkMessageEvent (Some "CLEAR_CACHE") p) w) = Fulfilled [ReplySuccess]) /\
  (p = false ->
   exists e, fst (onMessage (mkMessageEvent (Some "CLEAR_CACHE") p) w) = Rejected e).
Proof.
  destruct (clearAllCaches_runs w) as (results & E & _).
  change (onMessage (mkMessageEvent (Some "CLEAR_CACHE") p))
    with (orCatch (clearAllCaches ;; postMessage (mkMessageEvent (Some "CLEAR_CACHE") p)
                                       ReplySuccess)%promise
                  (fun error => postMessage (mkMessageEvent (Some "CLEAR_CACHE") p)
                                  (ReplyError (message error)))).
  unfold orCatch, andThen. rewrite E. unfold postMessage. simpl.
  destruct p; simpl; split; try reflexivity; split; try discriminate; eauto.
Qed.

(** X16.  After a CLEAR_CACHE message the main page is gone with the rest:
    the sender is told of success (when it gave a port), and from then on
    an intercepted request whose network fetch fails is delivered as a
    network error if it is a navigation, and as the offline placeholder
    otherwise. *)
Theorem clear_cache_removes_the_offline_fallback origin network request p w :
  method request = "GET" ->
  prefix origin (url request) = true ->
  network (url request) = None ->
  (p = true ->
   fst (onMessage (mkMessageEvent (Some "CLEAR_CACHE") p) w) = Fulfilled [ReplySuccess]) /\
  option_map (fun answer => respondWith (fst answer))
    (onFetch origin network request
       (snd (onMessage (mkMessageEvent (Some "CLEAR_CACHE") p) w)))
  = Some (if (destination request =? "document")%string
          then NetworkError else Answer offlineResponse).
Proof.
  intros Hget Hsame Hfail.
  destruct (clear_cache_runs p w) as (C & S & _). split; [exact S|].
  unfold onFetch. rewrite Hget, Hsame. simpl.
  rewrite respond_network_failure by (rewrite ?C; trivial).
  rewrite C. simpl. destruct (destination request =? "document")%string; reflexivity.
Qed.

Lemma clear_cache_removes_the_offline_fallback_witness :
  (true = true ->
   fst (onMessage (mkMessageEvent (Some "CLEAR_CACHE") true) precached)
   = Fulfilled [ReplySuccess]) /\
  option_map (fun answer => respondWith (fst answer))
    (onFetch exampleOrigin offline (get "/about.html" "document")
       (snd (onMessage (mkMessageEvent (Some "CLEAR_CACHE") true) precached)))
  = Some (if (destination (get "/about.html" "document") =? "document")%string
          then NetworkError else Answer offlineResponse).
Proof.
  apply (clear_cache_removes_the_offline_fallback exampleOrigin offline
           (get "/about.html" "document") true precached); reflexivity.
Defined.

(** ** install, activate and fetch together *)

Lemma existsb_and_false {A} (p q : A -> bool) l :
  existsb p l = false -> existsb (fun x => p x && q x) l = false.
Proof.
  induction l as [|x l IH]; [reflexivity|]. simpl.
  intros H. apply orb_false_iff in H as [-> Hl]. now rewrite IH.
Qed.

(** A response without a Vary header is stored unless it is partial. *)
Lemma noVaryHeader_storable r :
  status r <> 206 -> noVaryHeader r = true -> storable r = true.
Proof.
  intros Hstatus Hvary. unfold storable, variesOnAll.
  apply Z.eqb_neq in Hstatus. rewrite Hstatus.
  apply negb_true_iff in Hvary. now rewrite existsb_and_false.
Qed.

Lemma fetchAll_succeeds network urls :
  (forall u, In u urls ->
     exists r, network u = Some r /\ ok r = true /\ storable r = true) ->
  exists entries,
    fetchAll network urls = Some entries /\
    map fst entries = urls /\
    forall e, In e entries -> network (fst e) = Some (snd e).
Proof.
  induction urls as [|u urls IH]; intros H.
  - exists []. split; [reflexivity|]. split; [reflexivity|]. intros e [].
  - destruct (H u (or_introl eq_refl)) as (r & Hr & Hok & Hst).
    destruct IH as (entries & E & K & V); [intros v Hv; apply H; now right|].
    exists ((u, r) :: entries). simpl. rewrite Hr, Hok, Hst, E.
    split; [reflexivity|]. split; [now rewrite K|].
    intros e [<-|He]; [exact Hr | exact (V e He)].
Qed.

(** What a list of puts leaves for a URL that matches no entry put under
    another URL. *)
Lemma matchIn_fold_put (network : string -> option Response) entries :
  (forall e, In e entries -> network (fst e) = Some (snd e)) ->
  forall (c : Cache) u,
    (forall e, In e entries -> sameURL u (fst e) = true -> fst e = u) ->
    matchIn u (fold_left (fun c e => putEntry (fst e) (snd e) c) entries c)
    = if existsb (fun e => sameURL u (fst e)) entries then network u else matchIn u c.
Proof.
  induction entries as [|e entries IH]; intros V c u D; [reflexivity|].
  simpl. rewrite IH by (intros e' He'; try apply V; try apply D; now right).
  rewrite matchIn_putEntry.
  destruct (existsb _ entries); [now rewrite orb_true_r|]. rewrite orb_false_r.
  destruct (sameURL u (fst e)) eqn:S; [|reflexivity].
  rewrite <- (D e (or_introl eq_refl) S). symmetry. apply V. now left.
Qed.

Lemma append_inv_head (o a b : string) : o ++ a = o ++ b -> a = b.
Proof. induction o as [|c o IH]; simpl; [trivial | intros [= H]; auto]. Qed.

(** The fragment of a URL of the origin is the fragment of its path. *)
Lemma withoutFragment_absolute origin path :
  withoutFragment origin = origin ->
  withoutFragment (absolute origin path) = origin ++ withoutFragment path.
Proof.
  unfold absolute. induction origin as [|c o IH]; [reflexivity|]. simpl.
  destruct (c =? "#")%char; [discriminate|]. intros [= H]. now rewrite IH.
Qed.

(** The static files are distinct resources of the origin. *)
Lemma static_files_distinct origin a b :
  withoutFragment origin = origin ->
  In a STATIC_FILES -> In b STATIC_FILES ->
  sameURL (absolute origin a) (absolute origin b) = true -> b = a.
Proof.
  intros Ho Ha Hb S. apply String.eqb_eq in S.
  rewrite !withoutFragment_absolute in S by exact Ho.
  apply append_inv_head in S.
  assert (F : forall p, In p STATIC_FILES -> withoutFragment p = p).
  { intros p Hp. simpl in Hp.
    repeat (destruct Hp as [<-|Hp]; [reflexivity|]). destruct Hp. }
  now rewrite (F a Ha), (F b Hb) in S.
Qed.

Lemma install_addAll_fulfils origin network w entries :
  fetchAll network (map (absolute origin) STATIC_FILES) = Some entries ->
  install origin network w
  = (Fulfilled tt,
     mkWorker (update STATIC_CACHE_NAME
                 (fun c => fold_left (fun c e => putEntry (fst e) (snd e) c) entries c)
                 (opened STATIC_CACHE_NAME (caches w)))
              (trace w ++ [ ConsoleLog "Service Worker installing...";
                            ConsoleLog "Pre-caching static files";
                            SkipWaiting ])).
Proof.
  intros H. unfold install, cache_addAll. rewrite H. unfold opened. run_promise.
  destruct (hasKey STATIC_CACHE_NAME (caches w)); simpl; now rewrite <- !app_assoc.
Qed.

Lemma static_assets_fetched origin network :
  withoutFragment origin = origin ->
  served origin network ->
  exists entries,
    fetchAll network (map (absolute origin) STATIC_FILES) = Some entries /\
    (forall e, In e entries -> network (fst e) = Some (snd e)) /\
    forall asset, In asset STATIC_FILES ->
      existsb (fun e => sameURL (absolute origin asset) (fst e)) entries = true /\
      forall e, In e entries ->
                sameURL (absolute origin asset) (fst e) = true ->
                fst e = absolute origin asset.
Proof.
  intros Ho H.
  destruct (fetchAll_succeeds network (map (absolute origin) STATIC_FILES))
    as (entries & E & K & V).
  { intros u Hu. apply in_map_iff in Hu as (asset & <- & Hin).
    destruct (H asset Hin) as (r & Hr & Hok & Hstatus & Hvary).
    exists r. split; [exact Hr|]. split; [exact Hok|].
    now apply noVaryHeader_storable. }
  exists entries. split; [exact E|]. split; [exact V|].
  intros asset Hin. split.
  - apply existsb_exists.
    assert (Hk : In (absolute origin asset) (map fst entries))
      by (rewrite K; now apply in_map).
    apply in_map_iff in Hk as (e & Ee & He).
    exists e. split; [exact He|]. rewrite Ee. apply String.eqb_refl.
  - intros e He S.
    assert (Hk : In (fst e) (map (absolute origin) STATIC_FILES))
      by (rewrite <- K; now apply in_map).
    apply in_map_iff in Hk as (b & Eb & Hb). rewrite <- Eb in *.
    now rewrite (static_files_distinct origin asset b Ho Hin Hb S).
Qed.

(** X17.  When the network serves every static file with an ok status,
    not as a partial response (206) and without a Vary header, 'install'
    fulfils, calls [skipWaiting] after the precache, and the static
    partition answers a lookup of each file's URL with the response the
    network gave for it.  The cache storage is taken to hold no response
    with a Vary header, so that lookups go by URL as here. *)
Theorem install_precaches_every_asset origin network w :
  withoutFragment origin = origin ->
  withoutVary (caches w) = true ->
  served origin network ->
  fst (install origin network w) = Fulfilled tt /\
  trace (snd (install origin network w))
  = (trace w ++ [ ConsoleLog "Service Worker installing...";
                  ConsoleLog "Pre-caching static files";
                  SkipWaiting ])%list /\
  exists c,
    assoc STATIC_CACHE_NAME (caches (snd (install origin network w))) = Some c /\
    forall asset, In asset STATIC_FILES ->
      matchIn (absolute origin asset) c = network (absolute origin asset).
Proof.
  intros Ho _ H.
  destruct (static_assets_fetched origin network Ho H) as (entries & E & V & K).
  rewrite (install_addAll_fulfils origin network w entries E). cbn [fst snd caches trace].
  split; [reflexivity|]. split; [reflexivity|].
  rewrite assoc_update, assoc_opened. cbn [option_map].
  eexists. split; [reflexivity|]. intros asset Hin.
  destruct (K asset Hin) as [K1 K2].
  now rewrite (matchIn_fold_put network entries V _ _ K2), K1.
Qed.

Lemma install_precaches_every_asset_witness :
  fst (install exampleOrigin online emptyWorker) = Fulfilled tt /\
  trace (snd (install exampleOrigin online emptyWorker))
  = (trace emptyWorker ++ [ ConsoleLog "Service Worker installing...";
                            ConsoleLog "Pre-caching static files";
                            SkipWaiting ])%list /\
  exists c,
    assoc STATIC_CACHE_NAME (caches (snd (install exampleOrigin online emptyWorker)))
    = Some c /\
    forall asset, In asset STATIC_FILES ->
      matchIn (absolute exampleOrigin asset) c = online (absolute exampleOrigin asset).
Proof.
  apply (install_precaches_every_asset exampleOrigin online emptyWorker).
  - reflexivity.
  - reflexivity.
  - intros asset _. eexists. split; [reflexivity|]. split; [reflexivity|].
    split; [simpl; lia | reflexivity].
Defined.

Lemma assoc_filter_keys {V} (p : string -> bool) n (l : list (string * V)) :
  p n = true -> assoc n (filter (fun kv => p (fst kv)) l) = assoc n l.
Proof.
  intros Hn. induction l as [|[k v] l IH]; [reflexivity|].
  simpl. destruct (String.eqb_spec k n) as [->|N].
  - rewrite Hn. simpl. now rewrite String.eqb_refl.
  - destruct (p k); simpl; [|exact IH].
    destruct (String.eqb_spec k n); [contradiction | exact IH].
Qed.

Lemma filter_update {V} (p : string -> bool) n (f : V -> V) (l : list (string * V)) :
  p n = true ->
  filter (fun kv => p (fst kv)) (update n f l)
  = update n f (filter (fun kv => p (fst kv)) l).
Proof.
  intros Hn. induction l as [|[k v] l IH]; [reflexivity|].
  simpl. destruct (String.eqb_spec k n) as [->|N]; simpl.
  - rewrite Hn. simpl. now rewrite String.eqb_refl.
  - destruct (p k); simpl; [|exact IH].
    destruct (String.eqb_spec k n); [contradiction | now rewrite IH].
Qed.

Lemma filter_opened (p : string -> bool) n cs :
  p n = true ->
  filter (fun kv => p (fst kv)) (opened n cs)
  = opened n (filter (fun kv => p (fst kv)) cs).
Proof.
  intros Hn. unfold opened.
  rewrite !hasKey_assoc, (assoc_filter_keys p n cs Hn).
  destruct (assoc n cs); [reflexivity|].
  rewrite filter_app. simpl. now rewrite Hn.
Qed.

(** After a successful install and the activation, every static asset has a
    cached response. *)
Lemma precache_survives_activation origin network w asset :
  withoutFragment origin = origin ->
  served origin network ->
  In asset STATIC_FILES ->
  exists r,
    matchAll (absolute origin asset)
      (caches (snd (activate (snd (install origin network w))))) = Some r /\
    (matchAll (absolute origin asset)
       (filter (fun kv => negb (isOld (fst kv))) (caches w)) = None ->
     network (absolute origin asset) = Some r).
Proof.
  intros Ho H Hin.
  destruct (static_assets_fetched origin network Ho H) as (entries & E & V & K).
  destruct (H asset Hin) as (r0 & Hr0 & _).
  destruct (K asset Hin) as [K1 K2].
  rewrite activate_runs, (install_addAll_fulfils origin network w entries E).
  cbn [fst snd caches trace].
  rewrite (filter_update (fun k => negb (isOld k)) STATIC_CACHE_NAME) by reflexivity.
  rewrite (filter_opened (fun k => negb (isOld k)) STATIC_CACHE_NAME) by reflexivity.
  set (cs := filter (fun kv => negb (isOld (fst kv))) (caches w)).
  set (F := fun c : Cache => fold_left (fun c e => putEntry (fst e) (snd e) c) entries c).
  assert (S : forall c, matchIn (absolute origin asset) (F c) = Some r0).
  { intros c. unfold F.
    now rewrite (matchIn_fold_put network entries V _ _ K2), K1. }
  destruct (matchAll (absolute origin asset) cs) as [r1|] eqn:M.
  - destruct (matchAll_of_assoc (absolute origin asset) STATIC_CACHE_NAME
                (update STATIC_CACHE_NAME F (opened STATIC_CACHE_NAME cs))
                (F (match assoc STATIC_CACHE_NAME cs with Some c => c | None => [] end)) r0)
      as [r' Hr'].
    + now rewrite assoc_update, assoc_opened.
    + apply S.
    + exists r'. split; [exact Hr' | discriminate].
  - exists r0. split; [|intros _; exact Hr0].
    rewrite matchAll_update_miss by (now rewrite matchAll_opened).
    rewrite assoc_opened. apply S.
Qed.

(** X18.  The offline promise of the worker.  The network serves every
    static file with an ok status, not as a partial response and without
    a Vary header, and the cache storage holds no response with a Vary
    header.  Once 'install' has precached the static files and 'activate'
    has run, a GET for a static file is answered from the cache without a
    fetch, whatever the network does, and leaves the worker as it was; the
    response is the one the network gave at install time unless a current
    partition already held one for that URL.  A navigation of the origin
    whose fetch fails is always answered, by a cached response or by the
    cached main page. *)
Theorem installed_worker_serves_offline origin network network' w :
  withoutFragment origin = origin ->
  withoutVary (caches w) = true ->
  served origin network ->
  (forall asset destination,
     In asset STATIC_FILES ->
     exists r,
       onFetch origin network' (getRequest (absolute origin asset) destination)
         (snd (activate (snd (install origin network w))))
       = Some (Fulfilled (Some r), snd (activate (snd (install origin network w)))) /\
       (matchAll (absolute origin asset)
          (filter (fun kv => negb (isOld (fst kv))) (caches w)) = None ->
        network (absolute origin asset) = Some r)) /\
  (forall request,
     method request = "GET" ->
     prefix origin (url request) = true ->
     destination request = "document" ->
     network' (url request) = None ->
     exists page,
       option_map (fun answer => respondWith (fst answer))
         (onFetch origin network' request
            (snd (activate (snd (install origin network w)))))
       = Some (Answer page)).
Proof.
  intros Ho _ H. split.
  - intros asset destination Hin.
    destruct (precache_survives_activation origin network w asset Ho H Hin) as (r & M & N).
    exists r. split; [|exact N].
    unfold onFetch, getRequest, absolute. cbn [method url].
    rewrite prefix_app. cbn [negb String.eqb Ascii.eqb Bool.eqb].
    f_equal. apply respond_hit. exact M.
  - intros request Hget Hsame Hdoc Hfail.
    unfold onFetch. rewrite Hget, Hsame. cbn [negb String.eqb Ascii.eqb Bool.eqb option_map].
    destruct (matchAll (url request) (caches (snd (activate (snd (install origin network w))))))
      as [r|] eqn:M.
    + exists r. now rewrite (respond_hit origin network' request _ r M).
    + destruct (precache_survives_activation origin network w "/index.html" Ho H)
        as (page & P & _); [right; left; reflexivity|].
      exists page. rewrite (respond_network_failure origin network' request _ M Hfail).
      rewrite Hdoc. cbn [String.eqb Ascii.eqb Bool.eqb fst]. now rewrite P.
Qed.

Lemma installed_worker_serves_offline_witness :
  (exists r,
     onFetch exampleOrigin offline
       (getRequest (absolute exampleOrigin "/styles/main.css") "style")
       (snd (activate (snd (install exampleOrigin online upgraded))))
     = Some (Fulfilled (Some r), snd (activate (snd (install exampleOrigin online upgraded)))) /\
     (matchAll (absolute exampleOrigin "/styles/main.css")
        (filter (fun kv => negb (isOld (fst kv))) (caches upgraded)) = None ->
      online (absolute exampleOrigin "/styles/main.css") = Some r)) /\
  (exists page,
     option_map (fun answer => respondWith (fst answer))
       (onFetch exampleOrigin offline (get "/about.html" "document")
          (snd (activate (snd (install exampleOrigin online upgraded)))))
     = Some (Answer page)).
Proof.
  assert (H : served exampleOrigin online).
  { intros asset _. eexists. split; [reflexivity|]. split; [reflexivity|].
    split; [simpl; lia | reflexivity]. }
  split.
  - apply (proj1 (installed_worker_serves_offline exampleOrigin online offline upgraded
                    eq_refl eq_refl H)
             "/styles/main.css" "style").
    right; right; left; reflexivity.
  - apply (proj2 (installed_worker_serves_offline exampleOrigin online offline upgraded
                    eq_refl eq_refl H)
             (get "/about.html" "document")); reflexivity.
Defined.

(** ** The fetch listener and the dynamic partition *)



(** X20.  Provenance of the dynamic partition: whatever requests the fetch
    listener handles, every key the dynamic partition ends up with was
    there before or is the URL of a handled same-origin GET that the
    network answered with status 200 and type 'basic'.  Requests of other
    methods or origins, failed fetches and other responses leave no entry. *)
Theorem dynamic_entries_come_from_cacheable_requests origin network requests w k :
  In k (dynamicKeys (serve origin network requests w)) ->
  In k (dynamicKeys w) \/
  exists request,
    In request requests /\ cacheable origin network request /\ url request = k.
Proof.
  revert w. induction requests as [|request requests IH]; intros w Hin; [now left|].
  change (serve origin network (request :: requests) w)
    with (serve origin network requests
            (match onFetch origin network request w with
             | Some (_, w') => w'
             | None => w
             end)) in Hin.
  apply IH in Hin as [Hin|(request' & Hr & Hc & Hu)].
  2:{ right. exists request'. split; [now right | now split]. }
  unfold onFetch in Hin.
  destruct (method request =? "GET")%string eqn:Hget; cbn [negb] in Hin; [|now left].
  destruct (prefix origin (url request)) eqn:Hsame; cbn [negb] in Hin; [|now left].
  pose proof (respond_effect origin network request w) as H.
  destruct (respond origin network request w) as [res w']. cbn [snd] in H.
  unfold dynamicKeys in *.
  destruct H as [E|[E|(r & Hmiss & Hnet & Hstatus & Htype & _ & E)]]; rewrite E in Hin.
  - now left.
  - left. rewrite assoc_opened in Hin.
    destruct (assoc DYNAMIC_CACHE_NAME (caches w)); [exact Hin | destruct Hin].
  - rewrite assoc_update, assoc_opened in Hin. cbn [option_map] in Hin.
    apply putEntry_keys in Hin as [->|Hin].
    + right. exists request. split; [now left|]. split; [|reflexivity].
      split; [now apply String.eqb_eq|]. split; [exact Hsame|].
      exists r. now repeat split.
    + left. destruct (assoc DYNAMIC_CACHE_NAME (caches w)); [exact Hin | destruct Hin].
Qed.

Lemma dynamic_entries_come_from_cacheable_requests_witness :
  In (exampleOrigin ++ "/lib/1.js")
     (dynamicKeys (serve exampleOrigin online (scripts 2) emptyWorker)) /\
  (In (exampleOrigin ++ "/lib/1.js") (dynamicKeys emptyWorker) \/
   exists request,
     In request (scripts 2) /\ cacheable exampleOrigin online request /\
     url request = exampleOrigin ++ "/lib/1.js").
Proof.
  assert (H : In (exampleOrigin ++ "/lib/1.js")
                 (dynamicKeys (serve exampleOrigin online (scripts 2) emptyWorker))).
  { right; left; reflexivity. }
  split; [exact H|].
  exact (dynamic_entries_come_from_cacheable_requests
           exampleOrigin online (scripts 2) emptyWorker _ H).
Defined.



(** X22.  Of the messages the worker accepts only CLEAR_CACHE touches the
    cache storage: any other message, typed or not, leaves every partition
    as it was.  GET_VERSION answers on the port with the cache name
    constant, and without a port the listener throws instead. *)
Theorem only_clear_cache_touches_the_caches event w :
  messageType event <> Some "CLEAR_CACHE" ->
  caches (snd (onMessage event w)) = caches w /\
  (messageType event = Some "GET_VERSION" ->
   fst (onMessage event w)
   = if port event then Fulfilled [ReplyVersion CACHE_NAME]
     else Rejected (TypeError "Cannot read properties of undefined (reading 'postMessage')")).
Proof.
  intros Hother. unfold onMessage, postMessage.
  destruct (messageType event) as [type|]; [|split; [reflexivity | discriminate]].
  destruct (String.eqb_spec type "SKIP_WAITING") as [->|_].
  { split; [reflexivity | discriminate]. }
  destruct (String.eqb_spec type "GET_VERSION") as [->|N].
  { destruct (port event); split; reflexivity. }
  destruct (String.eqb_spec type "CLEAR_CACHE") as [->|_]; [congruence|].
  split; [reflexivity | congruence].
Qed.

Lemma only_clear_cache_touches_the_caches_witness :
  caches (snd (onMessage (mkMessageEvent (Some "GET_VERSION") true) precached))
  = caches precached /\
  (Some "GET_VERSION" = Some "GET_VERSION" ->
   fst (onMessage (mkMessageEvent (Some "GET_VERSION") true) precached)
   = Fulfilled [ReplyVersion CACHE_NAME]).
Proof.
  apply (only_clear_cache_touches_the_caches
           (mkMessageEvent (Some "GET_VERSION") true) precached).
  discriminate.
Defined.
